(** * GameClient (src/game.js): a shallow embedding and its properties

    The browser client keeps one mutable [GameClient] object.  Every
    method of the class that mutates it is embedded as a function from the
    object's state to its next state; what the host environment is asked
    to do (messages handed to the socket, timers armed with [setTimeout],
    [Image] objects whose [src] was assigned, calls on the 2D context) is
    recorded in the state, in program order.  The callbacks the host can
    invoke are the constructors of [Event]; [step] dispatches them.

    Modelling conventions.
    - A JavaScript object used as a dictionary ([players], [avatars],
      [avatarImageCache], [avatar.frames]) is a [gmap] over [string] keys;
      keys are ordinary own properties.  [Object.keys] and [Object.values]
      walk a dictionary in the order of [map_to_list]; no property below
      depends on that order.
    - [pressedKeys] (a [Set]) is a [gset string].
    - A number that carries a coordinate or a size is a rational [Q]
      (JavaScript doubles, idealised: exact arithmetic, no NaN).  An array
      index or frame index is a [Z], a counter a [nat], a delay in
      milliseconds a [Z].
    - [undefined]/[null] is [None].
    - Assignments to drawing styles and calls of [console] are left out. *)

From Stdlib Require Import Ascii ZArith QArith Lqa Lia.
From stdpp Require Import base option list gmap strings pretty.

Local Open Scope string_scope.
Local Open Scope Q_scope.
Local Open Scope list_scope.

(** ** Data model *)

(** A player record as the server sends it. *)
Record Player := mkPlayer {
  player_id : string;
  player_username : string;
  player_x : Q;
  player_y : Q;
  player_facing : string;
  player_avatar : string;
  player_animationFrame : option Z
}.

(** An avatar: a name and, per direction, the encoded frames. *)
Record Avatar := mkAvatar {
  avatar_name : string;
  avatar_frames : option (gmap string (list string))
}.

Record Viewport := mkViewport {
  vp_x : Q;
  vp_y : Q;
  vp_width : Q;
  vp_height : Q
}.

(** An [Image] element: the source it was given and, once decoded, its
    natural size. *)
Record Image := mkImage {
  img_src : string;
  img_naturalWidth : Q;
  img_naturalHeight : Q
}.

(** The value stored in [avatarImageCache] by [img.onload]. *)
Record CachedImage := mkCached {
  cached_image : Image;
  cached_width : Q;
  cached_height : Q
}.

(** An [Image] created by [preloadAvatarImages]: the [src] it was given,
    and the [cacheKey] its [onload] closure captured. *)
Record PendingImage := mkPending {
  pending_cacheKey : string;
  pending_src : string
}.

(** What [JSON.stringify] is applied to before [ws.send]. *)
Inductive ClientMessage :=
| JoinGame (username : string)
| Move (direction : string)
| Stop.

Inductive ReadyState := CONNECTING | OPEN | CLOSING | CLOSED.

Record WebSocket := mkWebSocket {
  readyState : ReadyState;
  ws_sent : list ClientMessage
}.

(** Calls on the 2D context, in the order they are made. *)
Inductive CanvasOp :=
| ClearRect (x y w h : Q)
| CtxSave
| CtxRestore
| CtxScale (sx sy : Q)
| DrawImage (img : Image) (dx dy dw dh : Q)
| DrawImageRegion (sx sy sw sh dx dy dw dh : Q)
| StrokeText (text : string) (x y : Q)
| FillText (text : string) (x y : Q).

(** Messages of the server, after [JSON.parse]. *)
Inductive ServerMessage :=
| join_game_ok (playerId : string) (players : gmap string Player)
               (avatars : gmap string Avatar)
| join_game_failed (error : string)
| player_joined (player : Player) (avatar : Avatar)
| players_moved (players : gmap string Player)
| player_left (playerId : string)
| unknown_action (action : string).

(** The fields of [GameClient], with the effects requested from the host:
    [timers] holds the delays given to [setTimeout], in the order of the
    calls; [loading] the images created by [preloadAvatarImages], in the
    order of creation; [canvas_ops] the drawing calls; [rendering] whether
    the render loop was started. *)
Record GameClient := mkGameClient {
  worldImage : bool;
  worldWidth : Q;
  worldHeight : Q;
  canvas_width : Q;
  canvas_height : Q;
  players : gmap string Player;
  avatars : gmap string Avatar;
  myPlayerId : option string;
  myPlayer : option Player;
  avatarImageCache : gmap string CachedImage;
  viewport : Viewport;
  ws : option WebSocket;
  reconnectAttempts : nat;
  maxReconnectAttempts : nat;
  pressedKeys : gset string;
  timers : list Z;
  loading : list PendingImage;
  canvas_ops : list CanvasOp;
  rendering : bool
}.

(** Field updates. *)
Definition set_players (v : gmap string Player) (g : GameClient) : GameClient :=
  mkGameClient (worldImage g) (worldWidth g) (worldHeight g) (canvas_width g)
    (canvas_height g) v (avatars g) (myPlayerId g) (myPlayer g)
    (avatarImageCache g) (viewport g) (ws g) (reconnectAttempts g)
    (maxReconnectAttempts g) (pressedKeys g) (timers g) (loading g)
    (canvas_ops g) (rendering g).

Definition set_avatars (v : gmap string Avatar) (g : GameClient) : GameClient :=
  mkGameClient (worldImage g) (worldWidth g) (worldHeight g) (canvas_width g)
    (canvas_height g) (players g) v (myPlayerId g) (myPlayer g)
    (avatarImageCache g) (viewport g) (ws g) (reconnectAttempts g)
    (maxReconnectAttempts g) (pressedKeys g) (timers g) (loading g)
    (canvas_ops g) (rendering g).

Definition set_myPlayerId (v : option string) (g : GameClient) : GameClient :=
  mkGameClient (worldImage g) (worldWidth g) (worldHeight g) (canvas_width g)
    (canvas_height g) (players g) (avatars g) v (myPlayer g)
    (avatarImageCache g) (viewport g) (ws g) (reconnectAttempts g)
    (maxReconnectAttempts g) (pressedKeys g) (timers g) (loading g)
    (canvas_ops g) (rendering g).

Definition set_myPlayer (v : option Player) (g : GameClient) : GameClient :=
  mkGameClient (worldImage g) (worldWidth g) (worldHeight g) (canvas_width g)
    (canvas_height g) (players g) (avatars g) (myPlayerId g) v
    (avatarImageCache g) (viewport g) (ws g) (reconnectAttempts g)
    (maxReconnectAttempts g) (pressedKeys g) (timers g) (loading g)
    (canvas_ops g) (rendering g).

Definition set_avatarImageCache (v : gmap string CachedImage) (g : GameClient)
  : GameClient :=
  mkGameClient (worldImage g) (worldWidth g) (worldHeight g) (canvas_width g)
    (canvas_height g) (players g) (avatars g) (myPlayerId g) (myPlayer g)
    v (viewport g) (ws g) (reconnectAttempts g)
    (maxReconnectAttempts g) (pressedKeys g) (timers g) (loading g)
    (canvas_ops g) (rendering g).

Definition set_viewport (v : Viewport) (g : GameClient) : GameClient :=
  mkGameClient (worldImage g) (worldWidth g) (worldHeight g) (canvas_width g)
    (canvas_height g) (players g) (avatars g) (myPlayerId g) (myPlayer g)
    (avatarImageCache g) v (ws g) (reconnectAttempts g)
    (maxReconnectAttempts g) (pressedKeys g) (timers g) (loading g)
    (canvas_ops g) (rendering g).

Definition set_canvas_size (w h : Q) (g : GameClient) : GameClient :=
  mkGameClient (worldImage g) (worldWidth g) (worldHeight g) w h
    (players g) (avatars g) (myPlayerId g) (myPlayer g)
    (avatarImageCache g) (viewport g) (ws g) (reconnectAttempts g)
    (maxReconnectAttempts g) (pressedKeys g) (timers g) (loading g)
    (canvas_ops g) (rendering g).

Definition set_worldImage (v : bool) (g : GameClient) : GameClient :=
  mkGameClient v (worldWidth g) (worldHeight g) (canvas_width g)
    (canvas_height g) (players g) (avatars g) (myPlayerId g) (myPlayer g)
    (avatarImageCache g) (viewport g) (ws g) (reconnectAttempts g)
    (maxReconnectAttempts g) (pressedKeys g) (timers g) (loading g)
    (canvas_ops g) (rendering g).

Definition set_ws (v : option WebSocket) (g : GameClient) : GameClient :=
  mkGameClient (worldImage g) (worldWidth g) (worldHeight g) (canvas_width g)
    (canvas_height g) (players g) (avatars g) (myPlayerId g) (myPlayer g)
    (avatarImageCache g) (viewport g) v (reconnectAttempts g)
    (maxReconnectAttempts g) (pressedKeys g) (timers g) (loading g)
    (canvas_ops g) (rendering g).

Definition set_reconnectAttempts (v : nat) (g : GameClient) : GameClient :=
  mkGameClient (worldImage g) (worldWidth g) (worldHeight g) (canvas_width g)
    (canvas_height g) (players g) (avatars g) (myPlayerId g) (myPlayer g)
    (avatarImageCache g) (viewport g) (ws g) v
    (maxReconnectAttempts g) (pressedKeys g) (timers g) (loading g)
    (canvas_ops g) (rendering g).

Definition set_pressedKeys (v : gset string) (g : GameClient) : GameClient :=
  mkGameClient (worldImage g) (worldWidth g) (worldHeight g) (canvas_width g)
    (canvas_height g) (players g) (avatars g) (myPlayerId g) (myPlayer g)
    (avatarImageCache g) (viewport g) (ws g) (reconnectAttempts g)
    (maxReconnectAttempts g) v (timers g) (loading g)
    (canvas_ops g) (rendering g).

Definition set_timers (v : list Z) (g : GameClient) : GameClient :=
  mkGameClient (worldImage g) (worldWidth g) (worldHeight g) (canvas_width g)
    (canvas_height g) (players g) (avatars g) (myPlayerId g) (myPlayer g)
    (avatarImageCache g) (viewport g) (ws g) (reconnectAttempts g)
    (maxReconnectAttempts g) (pressedKeys g) v (loading g)
    (canvas_ops g) (rendering g).

Definition set_loading (v : list PendingImage) (g : GameClient) : GameClient :=
  mkGameClient (worldImage g) (worldWidth g) (worldHeight g) (canvas_width g)
    (canvas_height g) (players g) (avatars g) (myPlayerId g) (myPlayer g)
    (avatarImageCache g) (viewport g) (ws g) (reconnectAttempts g)
    (maxReconnectAttempts g) (pressedKeys g) (timers g) v
    (canvas_ops g) (rendering g).

Definition set_canvas_ops (v : list CanvasOp) (g : GameClient) : GameClient :=
  mkGameClient (worldImage g) (worldWidth g) (worldHeight g) (canvas_width g)
    (canvas_height g) (players g) (avatars g) (myPlayerId g) (myPlayer g)
    (avatarImageCache g) (viewport g) (ws g) (reconnectAttempts g)
    (maxReconnectAttempts g) (pressedKeys g) (timers g) (loading g)
    v (rendering g).

Definition set_rendering (v : bool) (g : GameClient) : GameClient :=
  mkGameClient (worldImage g) (worldWidth g) (worldHeight g) (canvas_width g)
    (canvas_height g) (players g) (avatars g) (myPlayerId g) (myPlayer g)
    (avatarImageCache g) (viewport g) (ws g) (reconnectAttempts g)
    (maxReconnectAttempts g) (pressedKeys g) (timers g) (loading g)
    (canvas_ops g) v.

(** ** Input: key handling and outbound intents *)

(** [this.movementKeys]. *)
Definition movementKeys : gmap string string :=
  <["ArrowUp" := "up"]> (<["ArrowDown" := "down"]>
    (<["ArrowLeft" := "left"]> (<["ArrowRight" := "right"]> ∅))).

(** [ws.send(msg)] on the socket object. *)
Definition ws_send (m : ClientMessage) (w : WebSocket) : WebSocket :=
  mkWebSocket (readyState w) (ws_sent w ++ [m]).

Definition is_open (w : WebSocket) : bool :=
  match readyState w with OPEN => true | _ => false end.

(** [this.ws && this.ws.readyState === WebSocket.OPEN] guards the send. *)
Definition send_if_open (m : ClientMessage) (g : GameClient) : GameClient :=
  match ws g with
  | Some w => if is_open w then set_ws (Some (ws_send m w)) g else g
  | None => g
  end.

Definition sendMoveCommand (direction : string) (g : GameClient) : GameClient :=
  send_if_open (Move direction) g.

Definition sendStopCommand (g : GameClient) : GameClient :=
  send_if_open Stop g.

Definition handleKeyDown (code : string) (g : GameClient) : GameClient :=
  match movementKeys !! code with
  | Some direction =>
      sendMoveCommand direction (set_pressedKeys ({[code]} ∪ pressedKeys g) g)
  | None => g
  end.

Definition handleKeyUp (code : string) (g : GameClient) : GameClient :=
  match movementKeys !! code with
  | Some _ =>
      let g1 := set_pressedKeys (pressedKeys g ∖ {[code]}) g in
      if decide (size (pressedKeys g1) = 0%nat) then sendStopCommand g1 else g1
  | None => g
  end.

(** The messages handed to the socket so far. *)
Definition sent (g : GameClient) : list ClientMessage :=
  match ws g with Some w => ws_sent w | None => [] end.

Definition channel_open (g : GameClient) : Prop :=
  exists w, ws g = Some w /\ readyState w = OPEN.

(** ** Connection lifecycle *)

(** The field initialisers of the constructor, before [init()] runs.  The
    canvas element comes from the page with the size [cw] x [ch]. *)
Definition fields_init (cw ch : Q) : GameClient :=
  mkGameClient false 2048 2048 cw ch ∅ ∅ None None ∅
    (mkViewport 0 0 0 0) None 0 5 ∅ [] [] [] false.

Definition setupCanvas (g : GameClient) : GameClient :=
  let g1 := set_canvas_size (worldWidth g) (worldHeight g) g in
  set_viewport
    (mkViewport (vp_x (viewport g1)) (vp_y (viewport g1))
                (canvas_width g1) (canvas_height g1)) g1.

(** [this.worldImage = new Image()]: the field is an object from then on. *)
Definition loadWorldMap (g : GameClient) : GameClient := set_worldImage true g.

Definition attemptReconnect (g : GameClient) : GameClient :=
  if (reconnectAttempts g <? maxReconnectAttempts g)%nat then
    let g1 := set_reconnectAttempts (S (reconnectAttempts g)) g in
    set_timers (timers g1 ++ [(2000 * Z.of_nat (reconnectAttempts g1))%Z]) g1
  else g.

(** [connectToServer]: when the [WebSocket] constructor throws, the
    assignment to [this.ws] does not happen and the [catch] block runs. *)
Definition connectToServer (throws : bool) (g : GameClient) : GameClient :=
  if throws then attemptReconnect g
  else set_ws (Some (mkWebSocket CONNECTING [])) g.

Definition set_readyState (r : ReadyState) (g : GameClient) : GameClient :=
  match ws g with
  | Some w => set_ws (Some (mkWebSocket r (ws_sent w))) g
  | None => g
  end.

Definition joinGame (g : GameClient) : GameClient :=
  match ws g with
  | Some w => set_ws (Some (ws_send (JoinGame "Dawn") w)) g
  | None => g
  end.

Definition ws_onopen (g : GameClient) : GameClient :=
  joinGame (set_reconnectAttempts 0 (set_readyState OPEN g)).

Definition ws_onclose (g : GameClient) : GameClient :=
  attemptReconnect (set_readyState CLOSED g).

(** ** Viewport *)

Definition Math_min (a b : Q) : Q := if Qle_bool a b then a else b.
Definition Math_max (a b : Q) : Q := if Qle_bool a b then b else a.

Definition clampViewportToWorld (g : GameClient) : GameClient :=
  let v := viewport g in
  let x1 := Math_max 0 (Math_min (vp_x v) (worldWidth g - vp_width v)) in
  let y1 := Math_max 0 (Math_min (vp_y v) (worldHeight g - vp_height v)) in
  set_viewport (mkViewport x1 y1 (vp_width v) (vp_height v)) g.

Definition centerViewportOnPlayer (g : GameClient) : GameClient :=
  match myPlayer g with
  | Some p =>
      let v := viewport g in
      clampViewportToWorld
        (set_viewport
           (mkViewport (player_x p - vp_width v / 2)
                       (player_y p - vp_height v / 2)
                       (vp_width v) (vp_height v)) g)
  | None => g
  end.

(** ** Sprite cache *)

(** A number inside a template literal. *)
Definition number_to_string (z : Z) : string := pretty z.

(** [`${name}_${direction}_${frameIndex}`] *)
Definition cacheKey (name direction : string) (frameIndex : Z) : string :=
  name +:+ "_" +:+ direction +:+ "_" +:+ number_to_string frameIndex.

(** The pairs [(frameIndex, frameData)] that [forEach] visits. *)
Definition indexed (frames : list string) : list (Z * string) :=
  imap (fun i frameData => (Z.of_nat i, frameData)) frames.

(** The body of the inner [forEach] callback. *)
Definition preloadFrame (name direction : string) (entry : Z * string)
    (g : GameClient) : GameClient :=
  let key := cacheKey name direction (fst entry) in
  match avatarImageCache g !! key with
  | None => set_loading (loading g ++ [mkPending key (snd entry)]) g
  | Some _ => g
  end.

(** The body of the outer [forEach] callback. *)
Definition preloadDirection (name : string) (g : GameClient)
    (entry : string * list string) : GameClient :=
  foldl (fun acc e => preloadFrame name (fst entry) e acc) g (indexed (snd entry)).

Definition preloadAvatarImages (avatar : Avatar) (g : GameClient) : GameClient :=
  match avatar_frames avatar with
  | None => g
  | Some frames =>
      foldl (preloadDirection (avatar_name avatar)) g (map_to_list frames)
  end.

(** The [onload] closure of the [n]-th image created so far, run when the
    decoder reports the natural size [w] x [h]. *)
Definition img_onload (n : nat) (w h : Q) (g : GameClient) : GameClient :=
  match loading g !! n with
  | Some p =>
      set_avatarImageCache
        (<[pending_cacheKey p := mkCached (mkImage (pending_src p) w h) w h]>
           (avatarImageCache g)) g
  | None => g
  end.

(** ** Rendering *)

(** [frames[i]] on an array. *)
Definition array_get {A} (l : list A) (i : Z) : option A :=
  if (i <? 0)%Z then None else l !! Z.to_nat i.

(** [animationFrame || 0] *)
Definition or_zero (animationFrame : option Z) : Z := default 0%Z animationFrame.

Definition getAvatarFrame (avatar : Avatar) (facing : string)
    (animationFrame : option Z) : option string :=
  match avatar_frames avatar with
  | None => None
  | Some table =>
      let direction := if decide (facing = "west") then "east" else facing in
      match table !! direction with
      | None => None
      | Some frames =>
          let frameIndex :=
            Z.min (or_zero animationFrame) (Z.of_nat (length frames) - 1) in
          array_get frames frameIndex
      end
  end.

Definition drawPlayerLabel (player : Player) (x y : Q) : list CanvasOp :=
  let shortId := String.substring 0 4 (player_id player) in
  let labelText := player_username player +:+ " (" +:+ shortId +:+ ")" in
  [StrokeText labelText x y; FillText labelText x y].

(** A string in a condition: the empty string is falsy. *)
Definition truthy (s : option string) : bool :=
  match s with
  | Some s => negb (String.eqb s "")
  | None => false
  end.

Definition drawPlayer (g : GameClient) (player : Player) : list CanvasOp :=
  match avatars g !! player_avatar player with
  | None => []
  | Some avatar =>
      let v := viewport g in
      let screenX := player_x player - vp_x v in
      let screenY := player_y player - vp_y v in
      if negb (Qle_bool (-50) screenX) || negb (Qle_bool screenX (vp_width v + 50))
         || negb (Qle_bool (-50) screenY) || negb (Qle_bool screenY (vp_height v + 50))
      then []
      else
        let frameData :=
          getAvatarFrame avatar (player_facing player) (player_animationFrame player) in
        if negb (truthy frameData) then []
        else
          let key := cacheKey (avatar_name avatar) (player_facing player)
                       (or_zero (player_animationFrame player)) in
          match avatarImageCache g !! key with
          | None => []
          | Some cachedData =>
              let img := cached_image cachedData in
              let naturalWidth := cached_width cachedData in
              let naturalHeight := cached_height cachedData in
              let baseHeight := 128 in
              let aspectRatio := naturalWidth / naturalHeight in
              let displayWidth := baseHeight * aspectRatio in
              let displayHeight := baseHeight in
              let drawX := screenX - displayWidth / 2 in
              let drawY := screenY - displayHeight / 2 in
              (if decide (player_facing player = "west")
               then [CtxSave; CtxScale (-1) 1;
                     DrawImage img (- drawX - displayWidth) drawY
                               displayWidth displayHeight;
                     CtxRestore]
               else [DrawImage img drawX drawY displayWidth displayHeight])
              ++ drawPlayerLabel player screenX (screenY - displayHeight / 2 - 5)
          end
  end.

Definition drawPlayers (g : GameClient) : list CanvasOp :=
  flat_map (fun entry => drawPlayer g (snd entry)) (map_to_list (players g)).

Definition drawWorldMapWithViewport (g : GameClient) : list CanvasOp :=
  if worldImage g then
    let v := viewport g in
    [DrawImageRegion (vp_x v) (vp_y v) (vp_width v) (vp_height v)
                     0 0 (vp_width v) (vp_height v)]
  else [].

Definition render (g : GameClient) : GameClient :=
  set_canvas_ops
    (canvas_ops g
       ++ [ClearRect 0 0 (canvas_width g) (canvas_height g)]
       ++ drawWorldMapWithViewport g
       ++ drawPlayers g) g.

Definition startRenderLoop (g : GameClient) : GameClient :=
  render (set_rendering true g).

(** ** Server messages *)

(** [Object.assign(target, source)]: every own key of [source] is set on
    [target]. *)
Definition Object_assign {A} (target source : gmap string A) : gmap string A :=
  map_fold (fun k v acc => <[k := v]> acc) target source.

(** The branch [message.success] of [handleJoinGameResponse].  The log
    statement reads [this.myPlayer.x]: when [players] has no entry for
    the assigned identifier this raises, and the rest of the handler is
    not run. *)
Definition handleJoinGameResponse (playerId : string)
    (ps : gmap string Player) (avs : gmap string Avatar)
    (g : GameClient) : GameClient :=
  let g1 := set_avatars avs (set_players ps (set_myPlayerId (Some playerId) g)) in
  let g2 := set_myPlayer (players g1 !! playerId) g1 in
  let g3 := foldl (fun acc entry => preloadAvatarImages (snd entry) acc) g2
              (map_to_list (avatars g2)) in
  match myPlayer g3 with
  | Some _ => startRenderLoop (centerViewportOnPlayer g3)
  | None => g3
  end.

Definition handlePlayerJoined (player : Player) (avatar : Avatar)
    (g : GameClient) : GameClient :=
  let g1 := set_players (<[player_id player := player]> (players g)) g in
  let g2 := set_avatars (<[avatar_name avatar := avatar]> (avatars g1)) g1 in
  preloadAvatarImages avatar g2.

Definition handlePlayersMoved (delta : gmap string Player)
    (g : GameClient) : GameClient :=
  let g1 := set_players (Object_assign (players g) delta) g in
  match myPlayerId g1 with
  | Some me =>
      if truthy (Some me) then
        match delta !! me with
        | Some p => centerViewportOnPlayer (set_myPlayer (Some p) g1)
        | None => g1
        end
      else g1
  | None => g1
  end.

Definition handlePlayerLeft (playerId : string) (g : GameClient) : GameClient :=
  set_players (delete playerId (players g)) g.

Definition handleServerMessage (message : ServerMessage) (g : GameClient)
  : GameClient :=
  match message with
  | join_game_ok playerId ps avs => handleJoinGameResponse playerId ps avs g
  | join_game_failed _ => g
  | player_joined player avatar => handlePlayerJoined player avatar g
  | players_moved delta => handlePlayersMoved delta g
  | player_left playerId => handlePlayerLeft playerId g
  | unknown_action _ => g
  end.

(** ** The client as a reactive system *)

Definition drawWorldMap (g : GameClient) : GameClient :=
  if worldImage g then
    set_canvas_ops
      (canvas_ops g ++ [DrawImageRegion 0 0 (worldWidth g) (worldHeight g)
                                        0 0 (worldWidth g) (worldHeight g)]) g
  else g.

(** [init()]; [throws] tells whether the [WebSocket] constructor fails. *)
Definition init (throws : bool) (g : GameClient) : GameClient :=
  connectToServer throws (loadWorldMap (setupCanvas g)).

(** [new GameClient()] *)
Definition GameClient_new (cw ch : Q) (throws : bool) : GameClient :=
  init throws (fields_init cw ch).

(** Everything the host can call back into. *)
Inductive Event :=
| SocketOpened
| SocketClosed
| SocketError
| MessageReceived (message : ServerMessage)
| ReconnectTimerFired (throws : bool)
| KeyDown (code : string)
| KeyUp (code : string)
| ImageLoaded (n : nat) (w h : Q)
| WorldImageLoaded
| AnimationFrame.

Definition step (g : GameClient) (e : Event) : GameClient :=
  match e with
  | SocketOpened => ws_onopen g
  | SocketClosed => ws_onclose g
  | SocketError => g
  | MessageReceived message => handleServerMessage message g
  | ReconnectTimerFired throws => connectToServer throws g
  | KeyDown code => handleKeyDown code g
  | KeyUp code => handleKeyUp code g
  | ImageLoaded n w h => img_onload n w h g
  | WorldImageLoaded => drawWorldMap g
  | AnimationFrame => if rendering g then render g else g
  end.

Definition run (g : GameClient) (events : list Event) : GameClient :=
  foldl step g events.

(** ** Observations

    What the properties below say about a state or a sequence of events.
    None of this is code of the client. *)

(** [proj] does not read what [set] writes. *)
Definition ignores {C V : Type} (proj : GameClient -> C)
    (set : V -> GameClient -> GameClient) : Prop :=
  forall v g, proj (set v g) = proj g.

(** The keys that are down after a sequence of events, computed from the
    events alone. *)
Definition held_keys (keys : gset string) (events : list Event) : gset string :=
  foldl (fun s e =>
           match e with
           | KeyDown code =>
               match movementKeys !! code with
               | Some _ => {[code]} ∪ s
               | None => s
               end
           | KeyUp code =>
               match movementKeys !! code with
               | Some _ => s ∖ {[code]}
               | None => s
               end
           | _ => s
           end) keys events.

(** A failed connection cycle: the socket closes, or the constructor
    throws when the timer fires. *)
Definition is_failure (e : Event) : bool :=
  match e with
  | SocketClosed | ReconnectTimerFired true => true
  | _ => false
  end.

Definition is_open_event (e : Event) : bool :=
  match e with SocketOpened => true | _ => false end.

Definition failures (events : list Event) : nat :=
  length (List.filter is_failure events).

(** No successful open among the events. *)
Definition no_open (events : list Event) : bool :=
  forallb (fun e => negb (is_open_event e)) events.

(** The delay of the [k]-th reconnect attempt. *)
Definition backoff_delay (k : nat) : Z := (2000 * Z.of_nat k)%Z.

(** What the reconnect logic reads and writes. *)
Definition backoff (g : GameClient) : nat * nat * list Z :=
  (reconnectAttempts g, maxReconnectAttempts g, timers g).

(** What no handler but the camera code touches. *)
Definition geometry (g : GameClient) : Q * Q * Viewport :=
  (worldWidth g, worldHeight g, viewport g).

(** The window covers the whole 2048 x 2048 world and sits at its origin. *)
Definition full_window (g : GameClient) : Prop :=
  worldWidth g = 2048 /\ worldHeight g = 2048
  /\ vp_width (viewport g) = 2048 /\ vp_height (viewport g) = 2048
  /\ vp_x (viewport g) == 0 /\ vp_y (viewport g) == 0.

(** The horizontal extent on the canvas of a [drawImage] at [dx] of width
    [dw], issued under [scale(sx, 1)]: where its left and its right edge
    land. *)
Definition device_extent (sx dx dw : Q) : Q * Q := (sx * dx, sx * (dx + dw)).

(** *** The frames of an avatar, as the preloader walks them *)

(** Every [(direction, frameIndex, frameData)] that the two nested
    [forEach] loops of [preloadAvatarImages] visit, in that order. *)
Definition frame_entries (avatar : Avatar) : list (string * Z * string) :=
  match avatar_frames avatar with
  | None => []
  | Some table =>
      map_to_list table ≫=
        (fun entry => (fun e => (fst entry, fst e, snd e)) <$> indexed (snd entry))
  end.

Definition entry_key (name : string) (e : string * Z * string) : string :=
  cacheKey name (fst (fst e)) (snd (fst e)).

(** The test [!this.avatarImageCache[cacheKey]]. *)
Definition uncached (cache : gmap string CachedImage) (name : string)
    (e : string * Z * string) : bool :=
  match cache !! entry_key name e with
  | None => true
  | Some _ => false
  end.

Definition decode_of (name : string) (e : string * Z * string) : PendingImage :=
  mkPending (entry_key name e) (snd e).

(** One image per visited frame that has no cache entry. *)
Definition started_by_preload (avatar : Avatar)
    (cache : gmap string CachedImage) : list PendingImage :=
  decode_of (avatar_name avatar)
    <$> List.filter (uncached cache (avatar_name avatar)) (frame_entries avatar).

(** How many of the images in [l] were created for the cache key [key]. *)
Definition decodes_for (key : string) (l : list PendingImage) : nat :=
  count_occ String.string_dec (pending_cacheKey <$> l) key.

(** Whether the character [c] occurs in [s]. *)
Fixpoint has_char (c : Ascii.ascii) (s : string) : bool :=
  match s with
  | EmptyString => false
  | String a s' => if Ascii.eqb a c then true else has_char c s'
  end.

(** ** Concrete sessions *)

(** A connected client that has not heard of any avatar yet. *)
Definition connected : GameClient :=
  run (GameClient_new 300 150 false) [SocketOpened].

(** The client after the socket opened and ArrowUp went down once. *)
Definition held_up : GameClient := run connected [KeyDown "ArrowUp"].

(** ArrowUp, then ArrowLeft, both still down. *)
Definition held_up_left : GameClient := run held_up [KeyDown "ArrowLeft"].

(** The socket opens, then closes, and six reconnect cycles fail, with a
    key press in between. *)
Definition six_failures : list Event :=
  [SocketClosed;
   ReconnectTimerFired false; SocketError; SocketClosed;
   ReconnectTimerFired true;
   KeyDown "ArrowUp";
   ReconnectTimerFired false; SocketClosed;
   ReconnectTimerFired false; SocketClosed;
   ReconnectTimerFired false; SocketClosed;
   SocketClosed].

(** A player, and a client whose window is smaller than the world. *)
Definition alice : Player :=
  mkPlayer "p1-alice" "Alice" 100 1900 "south" "a" None.

Definition small_window : GameClient :=
  set_myPlayer (Some alice)
    (set_viewport (mkViewport 0 0 800 600) (GameClient_new 300 150 false)).

(** A second player, a table holding both, and a delta that names Alice
    only, with every field but the identifier changed. *)
Definition bob : Player :=
  mkPlayer "p2-bob" "Bob" 7 9 "east" "a" (Some 1%Z).

Definition alice_moved : Player :=
  mkPlayer "p1-alice" "Alicia" 101 1899 "north" "b" (Some 2%Z).

Definition two_players : GameClient :=
  set_players (<["p1-alice" := alice]> (<["p2-bob" := bob]> ∅))
    (GameClient_new 300 150 false).

Definition alice_delta : gmap string Player := {[ "p1-alice" := alice_moved ]}.

(** An avatar with frames for three directions and none for west. *)
Definition knight_frames : gmap string (list string) :=
  <["south" := ["S0"; "S1"]]> (<["east" := ["E0"; "E1"]]> (<["north" := ["N0"]]> ∅)).

Definition knight : Avatar := mkAvatar "knight" (Some knight_frames).

(** Two players with the same avatar join before any image has loaded. *)
Definition joined_twice : GameClient :=
  run connected
    [MessageReceived (player_joined alice knight);
     MessageReceived (player_joined bob knight)].

(** Three players on the knight avatar: one facing west, one facing east,
    one facing south whose frame index is past the two south frames. *)
Definition west_walker : Player :=
  mkPlayer "p3-west" "Wes" 500 500 "west" "knight" (Some 0%Z).

Definition east_walker : Player :=
  mkPlayer "p4-east" "Eve" 700 500 "east" "knight" (Some 0%Z).

Definition overrun : Player :=
  mkPlayer "p5-south" "Sue" 900 500 "south" "knight" (Some 5%Z).

(** The join snapshot arrives and all five images of the knight load. *)
Definition all_loaded : GameClient :=
  run connected
    [MessageReceived
       (join_game_ok "p3-west"
          (<["p3-west" := west_walker]> (<["p4-east" := east_walker]>
             (<["p5-south" := overrun]> ∅)))
          {[ "knight" := knight ]});
     ImageLoaded 0 32 48; ImageLoaded 1 32 48; ImageLoaded 2 32 48;
     ImageLoaded 3 32 48; ImageLoaded 4 32 48].

(** The same avatar with a west list of its own. *)
Definition knight_with_west : Avatar :=
  mkAvatar "knight" (Some (<["west" := ["W0"]]> knight_frames)).

Definition all_loaded_with_west : GameClient :=
  run connected
    [MessageReceived
       (join_game_ok "p3-west" {[ "p3-west" := west_walker ]}
          {[ "knight" := knight_with_west ]});
     ImageLoaded 0 32 48; ImageLoaded 1 32 48; ImageLoaded 2 32 48;
     ImageLoaded 3 32 48; ImageLoaded 4 32 48; ImageLoaded 5 32 48].


(** ** Further observations and sessions *)

Definition is_key_event (e : Event) : bool :=
  match e with
  | KeyDown _ | KeyUp _ => true
  | _ => false
  end.

(** On a socket, nothing goes out before the join request: either nothing
    was sent and the socket is not open, or the first message is the join
    request. *)
Definition join_first (g : GameClient) : Prop :=
  match ws g with
  | None => True
  | Some w =>
      (ws_sent w = [] /\ readyState w <> OPEN)
      \/ exists rest, ws_sent w = JoinGame "Dawn" :: rest
  end.

(** The connection was lost and the reconnect timer has not fired yet. *)
Definition disconnected : GameClient := run connected [SocketClosed].


(** The delays the client may arm a reconnect timer with. *)
Definition reconnect_delays : list Z := [2000; 4000; 6000; 8000; 10000]%Z.

(** The reconnect state is within its bounds. *)
Definition backoff_bounded (g : GameClient) : Prop :=
  maxReconnectAttempts g = 5%nat
  /\ (reconnectAttempts g <= 5)%nat
  /\ Forall (fun d => d ∈ reconnect_delays) (timers g).


(** The state of [handleJoinGameResponse] after the snapshot is stored and
    the avatars are preloaded, before the log statement. *)
Definition joined_snapshot (playerId : string) (ps : gmap string Player)
    (avs : gmap string Avatar) (g : GameClient) : GameClient :=
  let g1 := set_avatars avs (set_players ps (set_myPlayerId (Some playerId) g)) in
  let g2 := set_myPlayer (players g1 !! playerId) g1 in
  foldl (fun acc entry => preloadAvatarImages (snd entry) acc) g2
    (map_to_list (avatars g2)).

(** What a join response decides. *)
Definition session (g : GameClient)
  : gmap string Player * gmap string Avatar * option string * option Player :=
  (players g, avatars g, myPlayerId g, myPlayer g).

(** What the render loop shows and where. *)
Definition screen (g : GameClient) : Q * Q * Viewport * Q * Q * bool * list CanvasOp :=
  (worldWidth g, worldHeight g, viewport g, canvas_width g, canvas_height g,
   rendering g, canvas_ops g).

(** A join response whose snapshot does not contain the assigned player. *)
Definition join_without_me : ServerMessage :=
  join_game_ok "p7-ghost" {[ "p2-bob" := bob ]} ∅.


(** Whether the event is one of the two on which the client recentres the
    camera: a successful join response, or a movement delta that names
    the client's own identifier. *)
Definition recentres (g : GameClient) (e : Event) : bool :=
  match e with
  | MessageReceived (join_game_ok _ _ _) => true
  | MessageReceived (players_moved delta) =>
      match myPlayerId g with
      | Some me =>
          truthy (Some me)
          && match delta !! me with Some _ => true | None => false end
      | None => false
      end
  | _ => false
  end.

(** The camera and what it follows. *)
Definition camera (g : GameClient) : Viewport * option Player :=
  (viewport g, myPlayer g).

(** A player in the middle of the world, followed by the small window. *)
Definition carol : Player :=
  mkPlayer "p6-carol" "Carol" 1000 1200 "north" "knight" None.

Definition small_window_on_carol : GameClient :=
  set_myPlayer (Some carol) small_window.


(** The direction whose frame list [getAvatarFrame] reads. *)
Definition frame_direction (facing : string) : string :=
  if decide (facing = "west") then "east" else facing.

(** A player far outside the window of [all_loaded]. *)
Definition far_away : Player :=
  mkPlayer "p8-far" "Fay" 2099 500 "east" "knight" (Some 0%Z).


Definition is_join_ok (e : Event) : bool :=
  match e with
  | MessageReceived (join_game_ok _ _ _) => true
  | _ => false
  end.

(** The only drawing that [drawWorldMap] asks for. *)
Definition whole_map : CanvasOp :=
  DrawImageRegion 0 0 2048 2048 0 0 2048 2048.

(** Nothing has been rendered: the loop is not running and the canvas has
    only ever been asked to show the whole map. *)
Definition not_rendering (g : GameClient) : Prop :=
  worldWidth g = 2048 /\ worldHeight g = 2048
  /\ rendering g = false
  /\ Forall (fun op => op = whole_map) (canvas_ops g).


(** What the canvas was asked to draw, and what decides it before the
    first join. *)
Definition drawn (g : GameClient) : Q * Q * bool * list CanvasOp :=
  (worldWidth g, worldHeight g, rendering g, canvas_ops g).

(** * Properties *)

(** ** Frame conditions

    Each handler writes a few fields.  For a projection [proj] of the
    state that ignores those writes, the handler leaves [proj] as it is.
    The lemmas are stated once, for every projection; after the section
    each one asks only for the independence facts it uses. *)

Lemma foldl_preserves {A B C} (proj : A -> C) (f : A -> B -> A) (l : list B) :
  (forall a b, proj (f a b) = proj a) ->
  forall a, proj (foldl f a l) = proj a.
Proof.
  intros Hf. induction l as [|b l IH]; intros a; simpl; [reflexivity|].
  rewrite IH. apply Hf.
Qed.

Section Frame.
Context {C : Type} (proj : GameClient -> C).

Hypothesis Hws : ignores proj set_ws.
Hypothesis Hattempts : ignores proj set_reconnectAttempts.
Hypothesis Htimers : ignores proj set_timers.
Hypothesis Hkeys : ignores proj set_pressedKeys.
Hypothesis Hloading : ignores proj set_loading.
Hypothesis Hcache : ignores proj set_avatarImageCache.
Hypothesis Hops : ignores proj set_canvas_ops.
Hypothesis Hrendering : ignores proj set_rendering.
Hypothesis Hplayers : ignores proj set_players.
Hypothesis Havatars : ignores proj set_avatars.
Hypothesis HmyPlayerId : ignores proj set_myPlayerId.
Hypothesis HmyPlayer : ignores proj set_myPlayer.
Hypothesis Hviewport : ignores proj set_viewport.

Lemma frame_send_if_open m g : proj (send_if_open m g) = proj g.
Proof.
  unfold send_if_open. destruct (ws g) as [w|]; [|reflexivity].
  destruct (is_open w); [apply Hws|reflexivity].
Qed.

Lemma frame_set_readyState r g : proj (set_readyState r g) = proj g.
Proof. unfold set_readyState. destruct (ws g); [apply Hws|reflexivity]. Qed.

Lemma frame_joinGame g : proj (joinGame g) = proj g.
Proof. unfold joinGame. destruct (ws g); [apply Hws|reflexivity]. Qed.

Lemma frame_attemptReconnect g : proj (attemptReconnect g) = proj g.
Proof.
  unfold attemptReconnect. destruct (_ <? _)%nat; [|reflexivity].
  cbn zeta. rewrite Htimers. apply Hattempts.
Qed.

Lemma frame_connectToServer throws g :
  proj (connectToServer throws g) = proj g.
Proof.
  unfold connectToServer. destruct throws; [apply frame_attemptReconnect|].
  apply Hws.
Qed.

Lemma frame_ws_onopen g : proj (ws_onopen g) = proj g.
Proof.
  unfold ws_onopen. rewrite frame_joinGame, Hattempts.
  apply frame_set_readyState.
Qed.

Lemma frame_ws_onclose g : proj (ws_onclose g) = proj g.
Proof.
  unfold ws_onclose. rewrite frame_attemptReconnect.
  apply frame_set_readyState.
Qed.

Lemma frame_handleKeyDown code g : proj (handleKeyDown code g) = proj g.
Proof.
  unfold handleKeyDown. destruct (_ !! _); [|reflexivity].
  unfold sendMoveCommand. rewrite frame_send_if_open. apply Hkeys.
Qed.

Lemma frame_handleKeyUp code g : proj (handleKeyUp code g) = proj g.
Proof.
  unfold handleKeyUp. destruct (_ !! _); [|reflexivity]. cbn zeta.
  destruct (decide _); [|apply Hkeys].
  unfold sendStopCommand. rewrite frame_send_if_open. apply Hkeys.
Qed.

Lemma frame_preloadFrame name direction entry g :
  proj (preloadFrame name direction entry g) = proj g.
Proof. unfold preloadFrame. destruct (_ !! _); [reflexivity|apply Hloading]. Qed.

Lemma frame_preloadAvatarImages avatar g :
  proj (preloadAvatarImages avatar g) = proj g.
Proof.
  unfold preloadAvatarImages. destruct (avatar_frames avatar); [|reflexivity].
  apply foldl_preserves. intros a b. unfold preloadDirection.
  apply foldl_preserves. intros a' b'. apply frame_preloadFrame.
Qed.

Lemma frame_img_onload n w h g : proj (img_onload n w h g) = proj g.
Proof. unfold img_onload. destruct (_ !! _); [apply Hcache|reflexivity]. Qed.

Lemma frame_drawWorldMap g : proj (drawWorldMap g) = proj g.
Proof. unfold drawWorldMap. destruct (worldImage g); [apply Hops|reflexivity]. Qed.

Lemma frame_render g : proj (render g) = proj g.
Proof. apply Hops. Qed.

Lemma frame_startRenderLoop g : proj (startRenderLoop g) = proj g.
Proof. unfold startRenderLoop. rewrite frame_render. apply Hrendering. Qed.

(** The join response: the snapshot is stored and the avatars are
    preloaded; then, unless the snapshot lacks the own player, the camera
    is centred and the render loop starts. *)
Lemma handleJoinGameResponse_cases playerId ps avs g :
  exists g3,
    proj g3 = proj g
    /\ (handleJoinGameResponse playerId ps avs g = g3
        \/ handleJoinGameResponse playerId ps avs g
           = startRenderLoop (centerViewportOnPlayer g3)).
Proof.
  unfold handleJoinGameResponse. cbn zeta.
  match goal with |- context [foldl ?f ?a ?l] => exists (foldl f a l) end.
  split.
  - rewrite (foldl_preserves proj)
      by (intros a b; apply frame_preloadAvatarImages).
    rewrite HmyPlayer, Havatars, Hplayers. apply HmyPlayerId.
  - destruct (myPlayer _); [right|left]; reflexivity.
Qed.

(** A movement delta: the table is merged; then, if the delta names the
    own player, that record becomes [myPlayer] and the camera is centred. *)
Lemma handlePlayersMoved_cases delta g :
  exists g1,
    proj g1 = proj g
    /\ (handlePlayersMoved delta g = g1
        \/ exists p, handlePlayersMoved delta g
                     = centerViewportOnPlayer (set_myPlayer (Some p) g1)).
Proof.
  unfold handlePlayersMoved. cbn zeta.
  exists (set_players (Object_assign (players g) delta) g).
  split; [apply Hplayers|].
  destruct (myPlayerId _) as [me|]; [|left; reflexivity].
  destruct (truthy (Some me)); [|left; reflexivity].
  destruct (delta !! me) as [p|]; [|left; reflexivity].
  right. exists p. reflexivity.
Qed.

Lemma frame_handlePlayerJoined player avatar g :
  proj (handlePlayerJoined player avatar g) = proj g.
Proof.
  unfold handlePlayerJoined. cbn zeta.
  rewrite frame_preloadAvatarImages, Havatars. apply Hplayers.
Qed.

Lemma frame_centerViewportOnPlayer g :
  proj (centerViewportOnPlayer g) = proj g.
Proof.
  unfold centerViewportOnPlayer. destruct (myPlayer g); [|reflexivity].
  unfold clampViewportToWorld. rewrite Hviewport. apply Hviewport.
Qed.

Lemma frame_handleServerMessage message g :
  proj (handleServerMessage message g) = proj g.
Proof.
  destruct message as [pid ps avs|err|player avatar|delta|pid|act];
    cbn [handleServerMessage]; try reflexivity.
  - destruct (handleJoinGameResponse_cases pid ps avs g)
      as (g3 & H3 & [-> | ->]); [exact H3|].
    rewrite frame_startRenderLoop, frame_centerViewportOnPlayer. exact H3.
  - apply frame_handlePlayerJoined.
  - destruct (handlePlayersMoved_cases delta g)
      as (g1 & H1 & [-> | [p ->]]); [exact H1|].
    rewrite frame_centerViewportOnPlayer, HmyPlayer. exact H1.
  - apply Hplayers.
Qed.

(** A projection that ignores all of these writes is constant along
    every step. *)
Lemma frame_step g e : proj (step g e) = proj g.
Proof.
  destruct e as [| | |message|throws|code|code|n w h| |]; cbn [step].
  - apply frame_ws_onopen.
  - apply frame_ws_onclose.
  - reflexivity.
  - apply frame_handleServerMessage.
  - apply frame_connectToServer.
  - apply frame_handleKeyDown.
  - apply frame_handleKeyUp.
  - apply frame_img_onload.
  - apply frame_drawWorldMap.
  - destruct (rendering g); [apply frame_render|reflexivity].
Qed.

Lemma frame_run events : forall g, proj (run g events) = proj g.
Proof.
  induction events as [|e events IH]; intros g; [reflexivity|].
  change (run g (e :: events)) with (run (step g e) events).
  rewrite IH. apply frame_step.
Qed.
End Frame.

(** Discharges the independence facts of a concrete projection. *)
Ltac independent := intros ? ?; reflexivity.

(** ** Input controller *)

Lemma pressedKeys_send_if_open m g :
  pressedKeys (send_if_open m g) = pressedKeys g.
Proof. apply frame_send_if_open. independent. Qed.

(** With the channel open the message is appended to what was sent. *)
Lemma sent_send_if_open m g :
  channel_open g -> sent (send_if_open m g) = sent g ++ [m].
Proof.
  intros (w & Hw & Hr). unfold send_if_open, sent, is_open.
  rewrite Hw, Hr. reflexivity.
Qed.

(** With no open channel the message is dropped. *)
Lemma send_if_open_closed m g : ~ channel_open g -> send_if_open m g = g.
Proof.
  intros Hn. unfold send_if_open. destruct (ws g) as [w|] eqn:Hw; [|reflexivity].
  destruct (is_open w) eqn:Ho; [|reflexivity].
  exfalso. apply Hn. exists w. split; [assumption|].
  unfold is_open in Ho. destruct (readyState w); try discriminate. reflexivity.
Qed.

Example held_up_sent : sent held_up = [JoinGame "Dawn"; Move "up"].
Proof. vm_compute. reflexivity. Qed.

Lemma held_up_open : channel_open held_up.
Proof. eexists. split; [vm_compute; reflexivity|reflexivity]. Qed.

Lemma held_up_left_open : channel_open held_up_left.
Proof. eexists. split; [vm_compute; reflexivity|reflexivity]. Qed.

Lemma held_up_keys : pressedKeys held_up = {[ "ArrowUp" ]}.
Proof. apply (bool_decide_unpack _). vm_compute. exact I. Qed.

(** C3, as stated, fails: ArrowUp is already in the held set, and
    the repeated key-down still hands a second [Move "up"] to the socket. *)
Lemma keydown_repeat_emits_again :
  "ArrowUp" ∈ pressedKeys held_up
  /\ sent held_up = [JoinGame "Dawn"; Move "up"]
  /\ sent (handleKeyDown "ArrowUp" held_up)
     = [JoinGame "Dawn"; Move "up"; Move "up"].
Proof.
  split; [|split].
  - apply (bool_decide_unpack _). vm_compute. exact I.
  - vm_compute. reflexivity.
  - vm_compute. reflexivity.
Qed.

(** C3, amended: every key-down of a tracked key calls
    [sendMoveCommand] with the key's direction, whether or not the key is
    already held; with the channel open exactly one [Move direction] is
    appended at each such event, a key repeat included.  The key is in the
    held set afterwards. *)
Theorem handleKeyDown_always_moves (g : GameClient) (code direction : string)
    (Htracked : movementKeys !! code = Some direction) :
  handleKeyDown code g
    = sendMoveCommand direction (set_pressedKeys ({[code]} ∪ pressedKeys g) g)
  /\ pressedKeys (handleKeyDown code g) = {[code]} ∪ pressedKeys g
  /\ (channel_open g ->
      sent (handleKeyDown code g) = sent g ++ [Move direction]).
Proof.
  unfold handleKeyDown. rewrite Htracked. split; [reflexivity|]. split.
  - unfold sendMoveCommand. rewrite pressedKeys_send_if_open. reflexivity.
  - intros Hopen. unfold sendMoveCommand.
    rewrite sent_send_if_open; [reflexivity|exact Hopen].
Qed.

Lemma handleKeyDown_always_moves_witness :
  movementKeys !! "ArrowUp" = Some "up"
  /\ "ArrowUp" ∈ pressedKeys held_up
  /\ sent (handleKeyDown "ArrowUp" held_up) = sent held_up ++ [Move "up"].
Proof.
  split; [reflexivity|]. split.
  - apply (bool_decide_unpack _). vm_compute. exact I.
  - apply (handleKeyDown_always_moves held_up "ArrowUp" "up" eq_refl).
    exact held_up_open.
Defined.

(** Releasing a key with another one still down leaves a held set that
    is not empty. *)
Lemma size_remaining_held (keys : gset string) (code other : string) :
  other ∈ keys -> other ≠ code -> size (keys ∖ {[code]}) ≠ 0%nat.
Proof.
  intros Hin Hne Hsize. apply size_empty_inv in Hsize.
  apply (not_elem_of_empty (C := gset string) other).
  apply (Hsize other). apply elem_of_difference. split; [exact Hin|].
  intros Hc. apply elem_of_singleton in Hc. exact (Hne Hc).
Qed.

(** Key-up with another key still held: the key leaves the set, nothing
    else happens. *)
Lemma handleKeyUp_other_held g code other :
  is_Some (movementKeys !! code) ->
  other ∈ pressedKeys g -> other ≠ code ->
  handleKeyUp code g = set_pressedKeys (pressedKeys g ∖ {[code]}) g.
Proof.
  intros [direction Hd] Hin Hne. unfold handleKeyUp. rewrite Hd. cbn zeta.
  destruct (decide _) as [Hz|Hnz]; [|reflexivity].
  exfalso. exact (size_remaining_held _ _ _ Hin Hne Hz).
Qed.

(** Key-up of the only held key: the set is emptied and
    [sendStopCommand] runs. *)
Lemma handleKeyUp_last_key g code :
  is_Some (movementKeys !! code) ->
  pressedKeys g = {[code]} ->
  handleKeyUp code g = sendStopCommand (set_pressedKeys ∅ g).
Proof.
  intros [direction Hd] Hone. unfold handleKeyUp. rewrite Hd. cbn zeta.
  assert (pressedKeys g ∖ {[code]} = ∅) as ->
      by (rewrite Hone; apply difference_diag_L).
  destruct (decide _) as [Hz|Hnz]; [reflexivity|].
  exfalso. apply Hnz. exact (size_empty (C := gset string)).
Qed.

(** C8: in every state (so after every sequence of key events),
    the key-up of a tracked key while another key is still in the held set
    sends nothing; the key-up of the only held key empties the set and
    calls [sendStopCommand] once, which with the channel open appends
    exactly one [Stop]. *)
Theorem handleKeyUp_stop_only_when_empty (g : GameClient) (code : string)
    (Htracked : is_Some (movementKeys !! code)) :
  (forall other, other ∈ pressedKeys g -> other ≠ code ->
     handleKeyUp code g = set_pressedKeys (pressedKeys g ∖ {[code]}) g
     /\ sent (handleKeyUp code g) = sent g)
  /\ (pressedKeys g = {[code]} ->
      handleKeyUp code g = sendStopCommand (set_pressedKeys ∅ g)
      /\ pressedKeys (handleKeyUp code g) = ∅
      /\ (channel_open g -> sent (handleKeyUp code g) = sent g ++ [Stop])).
Proof.
  split.
  - intros other Hin Hne.
    rewrite (handleKeyUp_other_held g code other Htracked Hin Hne).
    split; reflexivity.
  - intros Hone. rewrite (handleKeyUp_last_key g code Htracked Hone).
    split; [reflexivity|]. unfold sendStopCommand. split.
    + rewrite pressedKeys_send_if_open. reflexivity.
    + intros Hopen. rewrite sent_send_if_open; [reflexivity|exact Hopen].
Qed.

Lemma handleKeyUp_stop_only_when_empty_witness :
  is_Some (movementKeys !! "ArrowUp")
  /\ sent (handleKeyUp "ArrowUp" held_up_left) = sent held_up_left
  /\ sent (handleKeyUp "ArrowUp" held_up) = sent held_up ++ [Stop].
Proof.
  assert (is_Some (movementKeys !! "ArrowUp")) as Ht by (eexists; reflexivity).
  split; [exact Ht|]. split.
  - apply (proj1 (handleKeyUp_stop_only_when_empty held_up_left "ArrowUp" Ht)
             "ArrowLeft").
    + apply (bool_decide_unpack _). vm_compute. exact I.
    + discriminate.
  - apply (proj2 (handleKeyUp_stop_only_when_empty held_up "ArrowUp" Ht)
             held_up_keys).
    exact held_up_open.
Defined.

(** The scenario of the specification: up, left, release up, release left. *)
Example up_left_release_scenario :
  sent (run (GameClient_new 300 150 false)
          [SocketOpened; KeyDown "ArrowUp"; KeyDown "ArrowLeft";
           KeyUp "ArrowUp"; KeyUp "ArrowLeft"])
  = [JoinGame "Dawn"; Move "up"; Move "left"; Stop].
Proof. vm_compute. reflexivity. Qed.

(** *** [pressedKeys] is the set of keys that are down *)

Lemma pressedKeys_step g e :
  pressedKeys (step g e) = held_keys (pressedKeys g) [e].
Proof.
  destruct e as [| | |message|throws|code|code|n w h| |]; cbn [step held_keys foldl].
  - apply frame_ws_onopen; independent.
  - apply frame_ws_onclose; independent.
  - reflexivity.
  - apply frame_handleServerMessage; independent.
  - apply frame_connectToServer; independent.
  - unfold handleKeyDown. destruct (movementKeys !! code); [|reflexivity].
    unfold sendMoveCommand. rewrite pressedKeys_send_if_open. reflexivity.
  - unfold handleKeyUp. destruct (movementKeys !! code); [|reflexivity].
    cbn zeta. destruct (decide _); [|reflexivity].
    unfold sendStopCommand. rewrite pressedKeys_send_if_open. reflexivity.
  - apply frame_img_onload; independent.
  - apply frame_drawWorldMap; independent.
  - destruct (rendering g); [apply frame_render; independent|reflexivity].
Qed.

(** Whatever else happens in between, the set held by the client is the
    set of tracked keys that went down and have not come up. *)
Lemma pressedKeys_run events : forall g,
  pressedKeys (run g events) = held_keys (pressedKeys g) events.
Proof.
  induction events as [|e events IH]; intros g; [reflexivity|].
  change (run g (e :: events)) with (run (step g e) events).
  rewrite IH, pressedKeys_step. reflexivity.
Qed.

(** The stop rule along any sequence of events of a fresh client. *)
Lemma stop_follows_held_keys cw ch throws events code :
  is_Some (movementKeys !! code) ->
  let g := run (GameClient_new cw ch throws) events in
  (forall other, other ∈ held_keys ∅ events -> other ≠ code ->
     sent (step g (KeyUp code)) = sent g)
  /\ (held_keys ∅ events = {[code]} -> channel_open g ->
      sent (step g (KeyUp code)) = sent g ++ [Stop]).
Proof.
  intros Ht g.
  assert (pressedKeys g = held_keys ∅ events) as Hk.
  { subst g. rewrite pressedKeys_run.
    assert (pressedKeys (GameClient_new cw ch throws) = ∅) as ->; [|reflexivity].
    unfold GameClient_new, init.
    rewrite (frame_connectToServer pressedKeys) by independent. reflexivity. }
  cbn [step]. split.
  - intros other Hin Hne. rewrite <- Hk in Hin.
    rewrite (handleKeyUp_other_held g code other Ht Hin Hne). reflexivity.
  - intros Hone Hopen. rewrite <- Hk in Hone.
    rewrite (handleKeyUp_last_key g code Ht Hone).
    unfold sendStopCommand. rewrite sent_send_if_open; [reflexivity|exact Hopen].
Qed.

(** ** Viewport *)

Lemma Math_min_le_r (a b : Q) : Math_min a b <= b.
Proof.
  unfold Math_min. destruct (Qle_bool a b) eqn:E.
  - apply Qle_bool_iff. exact E.
  - apply Qle_refl.
Qed.

Lemma Math_max_ge_l (a b : Q) : a <= Math_max a b.
Proof.
  unfold Math_max. destruct (Qle_bool a b) eqn:E.
  - apply Qle_bool_iff. exact E.
  - apply Qle_refl.
Qed.

Lemma Math_max_le (a b c : Q) : a <= c -> b <= c -> Math_max a b <= c.
Proof. intros Ha Hb. unfold Math_max. destruct (Qle_bool a b); assumption. Qed.

(** The clamp of [clampViewportToWorld] on one axis, for a non-empty range. *)
Lemma clamp_in_range (v hi : Q) :
  0 <= hi -> 0 <= Math_max 0 (Math_min v hi) /\ Math_max 0 (Math_min v hi) <= hi.
Proof.
  intros Hhi. split.
  - apply Math_max_ge_l.
  - apply Math_max_le; [exact Hhi|apply Math_min_le_r].
Qed.

(** An empty or inverted range collapses to 0. *)
Lemma clamp_collapses (v hi : Q) : hi <= 0 -> Math_max 0 (Math_min v hi) == 0.
Proof.
  intros Hhi. apply Qle_antisym.
  - apply Math_max_le; [apply Qle_refl|].
    apply Qle_trans with hi; [apply Math_min_le_r|exact Hhi].
  - apply Math_max_ge_l.
Qed.

(** Inside the range the clamp is the identity: the camera is where the
    centring put it. *)
Lemma clamp_inside (v hi : Q) :
  0 <= v -> v <= hi -> Math_max 0 (Math_min v hi) = v.
Proof.
  intros H0 Hhi. unfold Math_min.
  apply Qle_bool_iff in Hhi. rewrite Hhi.
  unfold Math_max. apply Qle_bool_iff in H0. rewrite H0. reflexivity.
Qed.

Lemma centerViewportOnPlayer_eq (g : GameClient) (p : Player) :
  myPlayer g = Some p ->
  centerViewportOnPlayer g
  = set_viewport
      (mkViewport
         (Math_max 0 (Math_min (player_x p - vp_width (viewport g) / 2)
                               (worldWidth g - vp_width (viewport g))))
         (Math_max 0 (Math_min (player_y p - vp_height (viewport g) / 2)
                               (worldHeight g - vp_height (viewport g))))
         (vp_width (viewport g)) (vp_height (viewport g))) g.
Proof.
  intros H. unfold centerViewportOnPlayer. rewrite H.
  destruct g; reflexivity.
Qed.

(** C4: after recentring on any player position, each camera
    coordinate lies in [[0, worldSize - viewportSize]] when the world is at
    least as large as the viewport on that axis, and is 0 when the world
    is at most as large as the viewport; the viewport size is unchanged. *)
Theorem centerViewportOnPlayer_clamped (g : GameClient) (p : Player)
    (Hme : myPlayer g = Some p) :
  let v := viewport g in
  let v' := viewport (centerViewportOnPlayer g) in
  (vp_width v <= worldWidth g ->
     0 <= vp_x v' /\ vp_x v' <= worldWidth g - vp_width v)
  /\ (vp_height v <= worldHeight g ->
     0 <= vp_y v' /\ vp_y v' <= worldHeight g - vp_height v)
  /\ (worldWidth g <= vp_width v -> vp_x v' == 0)
  /\ (worldHeight g <= vp_height v -> vp_y v' == 0)
  /\ vp_width v' = vp_width v /\ vp_height v' = vp_height v.
Proof.
  intros v v'. subst v'. rewrite (centerViewportOnPlayer_eq g p Hme). subst v.
  cbn [viewport set_viewport vp_x vp_y vp_width vp_height].
  repeat split.
  - apply Math_max_ge_l.
  - apply clamp_in_range. lra.
  - apply Math_max_ge_l.
  - apply clamp_in_range. lra.
  - intros H. apply clamp_collapses. lra.
  - intros H. apply clamp_collapses. lra.
Qed.

Lemma centerViewportOnPlayer_clamped_witness :
  myPlayer small_window = Some alice
  /\ 0 <= vp_x (viewport (centerViewportOnPlayer small_window))
  /\ vp_x (viewport (centerViewportOnPlayer small_window)) <= 2048 - 800
  /\ 0 <= vp_y (viewport (centerViewportOnPlayer small_window))
  /\ vp_y (viewport (centerViewportOnPlayer small_window)) <= 2048 - 600.
Proof.
  pose proof (centerViewportOnPlayer_clamped small_window alice eq_refl)
    as (Hx & Hy & _).
  split; [reflexivity|].
  assert (800 <= 2048) as Hw by (vm_compute; discriminate).
  assert (600 <= 2048) as Hh by (vm_compute; discriminate).
  destruct (Hx Hw) as [Hx1 Hx2]. destruct (Hy Hh) as [Hy1 Hy2].
  repeat split; assumption.
Defined.

(** The camera really moves when the window is smaller than the world:
    Alice at (100, 1900) in an 800 x 600 window puts the camera at
    (0, 1448), the bottom edge. *)
Example small_window_camera :
  vp_x (viewport (centerViewportOnPlayer small_window)) == 0
  /\ vp_y (viewport (centerViewportOnPlayer small_window)) == 1448.
Proof. split; vm_compute; reflexivity. Qed.

(** *** The camera in the shipped configuration *)

Lemma full_window_geometry g g' :
  geometry g' = geometry g -> full_window g -> full_window g'.
Proof.
  unfold geometry, full_window. intros H. injection H as Hw Hh Hv.
  rewrite Hw, Hh, Hv. tauto.
Qed.

(** With the window as large as the world, recentring lands on the origin
    wherever the player is. *)
Lemma centerViewportOnPlayer_full_window g :
  full_window g -> full_window (centerViewportOnPlayer g).
Proof.
  intros (Hw & Hh & Hvw & Hvh & Hx & Hy).
  destruct (myPlayer g) as [p|] eqn:Hme.
  - rewrite (centerViewportOnPlayer_eq g p Hme). unfold full_window.
    cbn [viewport worldWidth worldHeight set_viewport
         vp_x vp_y vp_width vp_height].
    rewrite Hw, Hh, Hvw, Hvh.
    repeat split; apply clamp_collapses; vm_compute; discriminate.
  - unfold centerViewportOnPlayer. rewrite Hme.
    unfold full_window. tauto.
Qed.

Lemma full_window_handleServerMessage message g :
  full_window g -> full_window (handleServerMessage message g).
Proof.
  intros H.
  destruct message as [pid ps avs|err|player avatar|delta|pid|act];
    cbn [handleServerMessage]; try exact H.
  - destruct (handleJoinGameResponse_cases geometry
                ltac:(independent) ltac:(independent) ltac:(independent)
                ltac:(independent) ltac:(independent) pid ps avs g)
      as (g3 & H3 & [-> | ->]).
    + exact (full_window_geometry g g3 H3 H).
    + apply (full_window_geometry (centerViewportOnPlayer g3)).
      * apply frame_startRenderLoop; independent.
      * apply centerViewportOnPlayer_full_window.
        exact (full_window_geometry g g3 H3 H).
  - apply (full_window_geometry g); [|exact H].
    apply frame_handlePlayerJoined; independent.
  - destruct (handlePlayersMoved_cases geometry ltac:(independent) delta g)
      as (g1 & H1 & [-> | [p ->]]).
    + exact (full_window_geometry g g1 H1 H).
    + apply centerViewportOnPlayer_full_window.
      apply (full_window_geometry g1); [reflexivity|].
      exact (full_window_geometry g g1 H1 H).
Qed.

Lemma full_window_step g e : full_window g -> full_window (step g e).
Proof.
  intros H.
  destruct e as [| | |message|throws|code|code|n w h| |]; cbn [step];
    try exact H;
    try (apply full_window_handleServerMessage, H);
    (apply (full_window_geometry g); [|exact H]).
  - apply frame_ws_onopen; independent.
  - apply frame_ws_onclose; independent.
  - apply frame_connectToServer; independent.
  - apply frame_handleKeyDown; independent.
  - apply frame_handleKeyUp; independent.
  - apply frame_img_onload; independent.
  - apply frame_drawWorldMap; independent.
  - destruct (rendering g); [apply frame_render; independent|reflexivity].
Qed.

Lemma full_window_run events : forall g, full_window g -> full_window (run g events).
Proof.
  induction events as [|e events IH]; intros g H; simpl; [exact H|].
  apply IH, full_window_step, H.
Qed.

(** [setupCanvas] makes the window as large as the world, whatever size
    the canvas element had. *)
Lemma full_window_new cw ch throws : full_window (GameClient_new cw ch throws).
Proof.
  apply (full_window_geometry (setupCanvas (fields_init cw ch))).
  - unfold GameClient_new, init.
    rewrite (frame_connectToServer geometry) by independent. reflexivity.
  - unfold full_window. simpl. repeat split; reflexivity.
Qed.

Lemma canvas_size_new cw ch throws :
  canvas_width (GameClient_new cw ch throws) = 2048
  /\ canvas_height (GameClient_new cw ch throws) = 2048.
Proof.
  unfold GameClient_new, init.
  rewrite (frame_connectToServer canvas_width),
          (frame_connectToServer canvas_height) by independent.
  split; reflexivity.
Qed.

(** C10: the constructor sizes the canvas and the viewport to
    the 2048 x 2048 world; from then on, whatever the host delivers, the
    viewport keeps that size and its origin is (0, 0), and recentring on
    any player from any reachable state gives (0, 0) again. *)
Theorem shipped_viewport_never_scrolls (cw ch : Q) (throws : bool)
    (events : list Event) (p : Player) :
  let g0 := GameClient_new cw ch throws in
  let g := run g0 events in
  let g' := centerViewportOnPlayer (set_myPlayer (Some p) g) in
  canvas_width g0 = worldWidth g0 /\ canvas_height g0 = worldHeight g0
  /\ vp_width (viewport g0) = worldWidth g0
  /\ vp_height (viewport g0) = worldHeight g0
  /\ full_window g
  /\ vp_x (viewport g') == 0 /\ vp_y (viewport g') == 0.
Proof.
  intros g0 g g'.
  pose proof (full_window_new cw ch throws) as H0. fold g0 in H0.
  assert (full_window g) as Hg by apply full_window_run, H0.
  destruct (canvas_size_new cw ch throws) as [Hcw Hch]. fold g0 in Hcw, Hch.
  destruct H0 as (Hw & Hh & Hvw & Hvh & _).
  rewrite Hcw, Hch, Hw, Hh, Hvw, Hvh.
  do 4 (split; [reflexivity|]). split; [exact Hg|].
  assert (full_window g') as (_ & _ & _ & _ & Hx & Hy).
  { apply centerViewportOnPlayer_full_window.
    apply (full_window_geometry g); [reflexivity|exact Hg]. }
  split; assumption.
Qed.

(** A player far from the origin still leaves the camera at (0, 0). *)
Example shipped_camera_example :
  let g := run (GameClient_new 300 150 false)
             [SocketOpened;
              MessageReceived
                (join_game_ok "p1-alice" {[ "p1-alice" := alice ]} ∅)] in
  myPlayer g = Some alice
  /\ vp_x (viewport g) == 0 /\ vp_y (viewport g) == 0.
Proof. vm_compute. repeat split. Qed.

(** ** Reconnection *)

Lemma backoff_attemptReconnect g :
  backoff (attemptReconnect g)
  = if (reconnectAttempts g <? maxReconnectAttempts g)%nat
    then (S (reconnectAttempts g), maxReconnectAttempts g,
          timers g ++ [backoff_delay (S (reconnectAttempts g))])
    else backoff g.
Proof. unfold attemptReconnect. destruct (_ <? _)%nat; reflexivity. Qed.

(** Only a failure or an open touches the reconnect state. *)
Lemma backoff_step_other g e :
  is_failure e = false -> is_open_event e = false ->
  backoff (step g e) = backoff g.
Proof.
  intros Hf Ho. destruct e as [| | |message|[|]|code|code|n w h| |];
    try discriminate; cbn [step].
  - reflexivity.
  - apply frame_handleServerMessage; independent.
  - reflexivity.
  - apply frame_handleKeyDown; independent.
  - apply frame_handleKeyUp; independent.
  - apply frame_img_onload; independent.
  - apply frame_drawWorldMap; independent.
  - destruct (rendering g); [apply frame_render; independent|reflexivity].
Qed.

(** A failure is one call of [attemptReconnect]. *)
Lemma backoff_step_failure g e :
  is_failure e = true -> backoff (step g e) = backoff (attemptReconnect g).
Proof.
  intros Hf. destruct e as [| | |message|[|]|code|code|n w h| |];
    try discriminate; cbn [step].
  - unfold ws_onclose. rewrite !backoff_attemptReconnect.
    pose proof (frame_set_readyState backoff ltac:(independent) CLOSED g) as H.
    rewrite H. unfold backoff in H. injection H as -> -> ->. reflexivity.
  - reflexivity.
Qed.

(** Consecutive failures from a state with [a] attempts counted: the
    counter climbs to the maximum and stays there, and one timer is armed
    per climb, with the delay of the new count. *)
Lemma backoff_run (events : list Event) : forall g,
  no_open events = true ->
  (reconnectAttempts g <= maxReconnectAttempts g)%nat ->
  backoff (run g events)
  = (Nat.min (reconnectAttempts g + failures events) (maxReconnectAttempts g),
     maxReconnectAttempts g,
     timers g ++ map backoff_delay
       (seq (S (reconnectAttempts g))
            (Nat.min (failures events)
                     (maxReconnectAttempts g - reconnectAttempts g)))).
Proof.
  induction events as [|e events IH]; intros g Hno Hle.
  - cbn [run foldl failures List.filter length]. unfold backoff.
    rewrite Nat.add_0_r, Nat.min_l by exact Hle.
    cbn [Nat.min seq map]. rewrite app_nil_r. reflexivity.
  - cbn [no_open forallb] in Hno. apply andb_prop in Hno as [Hopen Hno].
    apply negb_true_iff in Hopen.
    change (run g (e :: events)) with (run (step g e) events).
    destruct (is_failure e) eqn:Hf.
    + pose proof (backoff_step_failure g e Hf) as Hstep.
      rewrite backoff_attemptReconnect in Hstep.
      assert (failures (e :: events) = S (failures events)) as ->
        by (unfold failures; cbn [List.filter]; rewrite Hf; reflexivity).
      destruct (reconnectAttempts g <? maxReconnectAttempts g)%nat eqn:Hlt.
      * apply Nat.ltb_lt in Hlt.
        unfold backoff in Hstep. injection Hstep as Ha Hm Ht.
        rewrite IH by (try exact Hno; lia). rewrite Ha, Hm, Ht.
        replace (Nat.min (S (failures events))
                   (maxReconnectAttempts g - reconnectAttempts g))
          with (S (Nat.min (failures events)
                     (maxReconnectAttempts g - S (reconnectAttempts g)))) by lia.
        cbn [seq map]. rewrite <- app_assoc. cbn [app].
        replace (reconnectAttempts g + S (failures events))%nat
          with (S (reconnectAttempts g) + failures events)%nat by lia.
        reflexivity.
      * apply Nat.ltb_ge in Hlt.
        unfold backoff in Hstep. injection Hstep as Ha Hm Ht.
        rewrite IH by (try exact Hno; lia). rewrite Ha, Hm, Ht.
        replace (maxReconnectAttempts g - reconnectAttempts g)%nat
          with 0%nat by lia.
        rewrite !Nat.min_0_r. f_equal. f_equal. lia.
    + pose proof (backoff_step_other g e Hf Hopen) as Hstep.
      assert (failures (e :: events) = failures events) as ->
        by (unfold failures; cbn [List.filter]; rewrite Hf; reflexivity).
      unfold backoff in Hstep. injection Hstep as Ha Hm Ht.
      rewrite IH by (try exact Hno; lia). rewrite Ha, Hm, Ht. reflexivity.
Qed.

Lemma reconnectAttempts_ws_onopen g : reconnectAttempts (ws_onopen g) = 0%nat.
Proof.
  unfold ws_onopen. rewrite (frame_joinGame reconnectAttempts) by independent.
  reflexivity.
Qed.

(** C5: from a state whose counter is 0 (a fresh client, or one
    whose socket opened), with the maximum of 5, any run of events without
    a successful open arms exactly the timers 2000 * 1, 2000 * 2, ... , one
    per failure, up to the fifth; from the fifth failure on the armed
    delays are 2000, 4000, 6000, 8000, 10000 and no more; and [onopen]
    puts the counter back to 0. *)
Theorem reconnect_backoff_sequence (g : GameClient) (events : list Event)
    (Hmax : maxReconnectAttempts g = 5%nat)
    (Hfresh : reconnectAttempts g = 0%nat)
    (Hno : no_open events = true) :
  timers (run g events)
    = timers g ++ map backoff_delay (seq 1 (Nat.min (failures events) 5))
  /\ reconnectAttempts (run g events) = Nat.min (failures events) 5
  /\ ((5 <= failures events)%nat ->
      timers (run g events)
        = timers g ++ [2000; 4000; 6000; 8000; 10000]%Z)
  /\ reconnectAttempts (ws_onopen (run g events)) = 0%nat.
Proof.
  pose proof (backoff_run events g Hno) as H.
  rewrite Hmax, Hfresh in H. specialize (H ltac:(lia)).
  unfold backoff in H. injection H as Ha _ Ht.
  cbn [Nat.add Nat.sub] in Ha, Ht.
  split; [exact Ht|]. split; [exact Ha|]. split.
  - intros H5. rewrite Ht. rewrite Nat.min_r by exact H5. reflexivity.
  - apply reconnectAttempts_ws_onopen.
Qed.

Lemma reconnect_backoff_sequence_witness :
  timers (run (run (GameClient_new 300 150 false) [SocketOpened]) six_failures)
  = [2000; 4000; 6000; 8000; 10000]%Z.
Proof.
  exact (proj1 (proj2 (proj2
    (reconnect_backoff_sequence
       (run (GameClient_new 300 150 false) [SocketOpened]) six_failures
       eq_refl eq_refl eq_refl))) ltac:(vm_compute; lia)).
Defined.

(** The maximum itself never changes. *)
Lemma maxReconnectAttempts_run events g :
  maxReconnectAttempts (run g events) = maxReconnectAttempts g.
Proof. apply frame_run; independent. Qed.

(** For the shipped client the bound is 5 in every reachable state, and a
    fresh client has counted no attempts. *)
Lemma shipped_backoff_bounds cw ch throws events :
  maxReconnectAttempts (run (GameClient_new cw ch throws) events) = 5%nat
  /\ reconnectAttempts (GameClient_new cw ch false) = 0%nat.
Proof.
  rewrite maxReconnectAttempts_run. unfold GameClient_new, init.
  rewrite (frame_connectToServer maxReconnectAttempts) by independent.
  split; reflexivity.
Qed.

(** ** Entity table *)

(** [Object.assign] reads as: the source's entry where there is one, the
    target's otherwise. *)
Lemma lookup_Object_assign {A} (target source : gmap string A) (k : string) :
  Object_assign target source !! k
  = match source !! k with
    | Some v => Some v
    | None => target !! k
    end.
Proof.
  unfold Object_assign.
  apply (map_fold_weak_ind
           (fun (r : gmap string A) (m : gmap string A) =>
              r !! k = match m !! k with Some v => Some v | None => target !! k end)).
  - rewrite lookup_empty. reflexivity.
  - intros i x m r Hnone IH.
    destruct (decide (i = k)) as [->|Hne].
    + rewrite !lookup_insert_eq. reflexivity.
    + rewrite !lookup_insert_ne by exact Hne. exact IH.
Qed.

(** The table after a movement delta is the merge, whether or not the
    camera moved. *)
Lemma players_handlePlayersMoved delta g :
  players (handlePlayersMoved delta g) = Object_assign (players g) delta.
Proof.
  unfold handlePlayersMoved. cbn zeta.
  destruct (myPlayerId _) as [me|]; [|reflexivity].
  destruct (truthy (Some me)); [|reflexivity].
  destruct (delta !! me); [|reflexivity].
  rewrite (frame_centerViewportOnPlayer players) by independent. reflexivity.
Qed.

(** C6: when a [players_moved] delta names an identifier that
    the table already holds, the stored record afterwards is the delta's
    record, whatever the old one was; so whichever field is read from the
    table, it is the delta's. *)
Theorem handlePlayersMoved_replaces (g : GameClient)
    (delta : gmap string Player) (id : string) (old new : Player)
    (Hold : players g !! id = Some old)
    (Hnew : delta !! id = Some new) :
  players (handlePlayersMoved delta g) !! id = Some new
  /\ players (step g (MessageReceived (players_moved delta))) !! id = Some new
  /\ forall (A : Type) (field : Player -> A),
       field <$> (players (handlePlayersMoved delta g) !! id) = Some (field new).
Proof.
  cbn [step handleServerMessage].
  rewrite players_handlePlayersMoved, lookup_Object_assign, Hnew.
  repeat split; reflexivity.
Qed.

(** C7: an identifier that a [players_moved] delta does not name
    keeps its entry: present before means present after with the same
    record, absent before means absent after. *)
Theorem handlePlayersMoved_keeps_others (g : GameClient)
    (delta : gmap string Player) (id : string)
    (Habsent : delta !! id = None) :
  players (handlePlayersMoved delta g) !! id = players g !! id
  /\ players (step g (MessageReceived (players_moved delta))) !! id
     = players g !! id.
Proof.
  cbn [step handleServerMessage].
  rewrite players_handlePlayersMoved, lookup_Object_assign, Habsent.
  split; reflexivity.
Qed.

Lemma handlePlayersMoved_replaces_witness :
  players two_players !! "p1-alice" = Some alice
  /\ alice_delta !! "p1-alice" = Some alice_moved
  /\ players (handlePlayersMoved alice_delta two_players) !! "p1-alice"
     = Some alice_moved.
Proof.
  assert (players two_players !! "p1-alice" = Some alice) as H1
    by (vm_compute; reflexivity).
  assert (alice_delta !! "p1-alice" = Some alice_moved) as H2
    by (vm_compute; reflexivity).
  split; [exact H1|]. split; [exact H2|].
  exact (proj1 (handlePlayersMoved_replaces two_players alice_delta
                  "p1-alice" alice alice_moved H1 H2)).
Defined.

Lemma handlePlayersMoved_keeps_others_witness :
  alice_delta !! "p2-bob" = None
  /\ players (handlePlayersMoved alice_delta two_players) !! "p2-bob" = Some bob.
Proof.
  assert (alice_delta !! "p2-bob" = None) as H1 by (vm_compute; reflexivity).
  split; [exact H1|].
  rewrite (proj1 (handlePlayersMoved_keeps_others two_players alice_delta
                    "p2-bob" H1)).
  vm_compute. reflexivity.
Defined.

(** ** Sprite cache *)

(** *** What one call of the preloader does *)

Lemma preloadFrame_spec name d e g :
  avatarImageCache (preloadFrame name d e g) = avatarImageCache g
  /\ loading (preloadFrame name d e g)
     = loading g ++ (decode_of name
         <$> List.filter (uncached (avatarImageCache g) name) [(d, fst e, snd e)]).
Proof.
  unfold preloadFrame, uncached, entry_key, decode_of.
  cbn [List.filter fst snd].
  destruct (avatarImageCache g !! cacheKey name d (fst e)).
  - split; [reflexivity|]. cbn. rewrite app_nil_r. reflexivity.
  - split; reflexivity.
Qed.

Lemma preloadFrames_spec name d (l : list (Z * string)) : forall g,
  avatarImageCache (foldl (fun acc e => preloadFrame name d e acc) g l)
  = avatarImageCache g
  /\ loading (foldl (fun acc e => preloadFrame name d e acc) g l)
     = loading g ++ (decode_of name
         <$> List.filter (uncached (avatarImageCache g) name)
               ((fun e => (d, fst e, snd e)) <$> l)).
Proof.
  induction l as [|e l IH]; intros g.
  - cbn. rewrite app_nil_r. split; reflexivity.
  - cbn [foldl].
    destruct (preloadFrame_spec name d e g) as [Hc Hl].
    destruct (IH (preloadFrame name d e g)) as [Hc' Hl'].
    rewrite Hc', Hl', Hc, Hl. split; [reflexivity|].
    rewrite <- app_assoc, <- fmap_app, <- List.filter_app. reflexivity.
Qed.

Lemma preloadDirections_spec name (l : list (string * list string)) : forall g,
  avatarImageCache (foldl (preloadDirection name) g l) = avatarImageCache g
  /\ loading (foldl (preloadDirection name) g l)
     = loading g ++ (decode_of name
         <$> List.filter (uncached (avatarImageCache g) name)
               (l ≫= (fun entry =>
                  (fun e => (fst entry, fst e, snd e)) <$> indexed (snd entry)))).
Proof.
  induction l as [|entry l IH]; intros g.
  - cbn. rewrite app_nil_r. split; reflexivity.
  - cbn [foldl]. unfold preloadDirection at 2 4.
    destruct (preloadFrames_spec name (fst entry) (indexed (snd entry)) g)
      as [Hc Hl].
    match goal with |- context [foldl (preloadDirection name) ?x l] =>
      destruct (IH x) as [Hc' Hl'] end.
    rewrite Hc', Hl', Hc, Hl. split; [reflexivity|].
    rewrite bind_cons, List.filter_app, fmap_app, <- app_assoc. reflexivity.
Qed.

(** A call creates one image for every visited frame without a cache
    entry, and leaves the cache as it is: only [onload] fills it. *)
Lemma preloadAvatarImages_spec avatar g :
  avatarImageCache (preloadAvatarImages avatar g) = avatarImageCache g
  /\ loading (preloadAvatarImages avatar g)
     = loading g ++ started_by_preload avatar (avatarImageCache g).
Proof.
  unfold preloadAvatarImages, started_by_preload, frame_entries.
  destruct (avatar_frames avatar) as [table|].
  - apply preloadDirections_spec.
  - cbn. rewrite app_nil_r. split; reflexivity.
Qed.

(** *** Cache keys of one avatar do not collide *)

Lemma append_String a s t : String a s +:+ t = String a (s +:+ t).
Proof. reflexivity. Qed.

Lemma append_empty t : EmptyString +:+ t = t.
Proof. reflexivity. Qed.

Lemma has_char_append_r c s t : has_char c (s +:+ String c t) = true.
Proof.
  induction s as [|a s IH].
  - rewrite append_empty. cbn [has_char]. rewrite Ascii.eqb_refl. reflexivity.
  - rewrite append_String. cbn [has_char].
    destruct (Ascii.eqb a c); [reflexivity|exact IH].
Qed.

(** The text after the last underscore determines the split. *)
Lemma append_underscore_inj (d d' r r' : string) :
  has_char "_"%char r = false -> has_char "_"%char r' = false ->
  d +:+ String "_"%char r = d' +:+ String "_"%char r' -> d = d' /\ r = r'.
Proof.
  intros Hr Hr'. revert d'.
  induction d as [|a d IH]; intros [|a' d'] H;
    rewrite ?append_String, ?append_empty in H.
  - injection H as ->. split; reflexivity.
  - injection H as <- ->. rewrite has_char_append_r in Hr. discriminate.
  - injection H as -> <-. rewrite has_char_append_r in Hr'. discriminate.
  - injection H as -> H. destruct (IH d' H) as [-> ->]. split; reflexivity.
Qed.

Lemma pretty_N_char_not_underscore x :
  Ascii.eqb (pretty_N_char x) "_"%char = false.
Proof. unfold pretty_N_char. repeat case_match; reflexivity. Qed.

Lemma has_underscore_pretty_N_go x : forall s,
  has_char "_"%char (pretty_N_go x s) = has_char "_"%char s.
Proof.
  induction (N.lt_wf_0 x) as [x _ IH]; intros s.
  destruct (decide (x = 0%N)) as [->|Hx].
  - rewrite pretty_N_go_0. reflexivity.
  - rewrite pretty_N_go_step by lia.
    rewrite IH by (apply N.div_lt; lia).
    cbn [has_char]. rewrite pretty_N_char_not_underscore. reflexivity.
Qed.

Lemma has_underscore_pretty_N (x : N) : has_char "_"%char (pretty x) = false.
Proof.
  unfold pretty, pretty_N. destruct (decide (x = 0%N)); [reflexivity|].
  apply has_underscore_pretty_N_go.
Qed.

Lemma has_underscore_number (z : Z) : has_char "_"%char (number_to_string z) = false.
Proof.
  unfold number_to_string, pretty, pretty_Z. destruct z as [|p|p].
  - reflexivity.
  - apply has_underscore_pretty_N.
  - rewrite append_String, append_empty.
    cbn [has_char]. apply has_underscore_pretty_N.
Qed.

(** For one avatar name, the key determines direction and frame index. *)
Lemma cacheKey_inj name (d d' : string) (i i' : Z) :
  cacheKey name d i = cacheKey name d' i' -> d = d' /\ i = i'.
Proof.
  unfold cacheKey. intros H.
  apply (inj (String.app name)) in H.
  rewrite !append_String, !append_empty in H.
  injection H as H.
  apply append_underscore_inj in H; try apply has_underscore_number.
  destruct H as [-> H]. split; [reflexivity|].
  unfold number_to_string in H. exact (inj pretty _ _ H).
Qed.

Lemma fmap_bind_list {A B C} (g : B -> C) (f : A -> list B) (l : list A) :
  g <$> (l ≫= f) = l ≫= (fun x => g <$> f x).
Proof.
  induction l as [|x l IH]; [reflexivity|].
  rewrite !bind_cons, fmap_app, IH. reflexivity.
Qed.

(** The keys of one direction are those of the indices of its array. *)
Lemma direction_keys name d (arr : list string) :
  entry_key name <$> ((fun e => (d, fst e, snd e)) <$> indexed arr)
  = (fun i => cacheKey name d (Z.of_nat i)) <$> seq 0 (length arr).
Proof.
  unfold indexed. rewrite <- list_fmap_compose, fmap_imap.
  apply (imap_seq_0 arr (fun i => cacheKey name d (Z.of_nat i))).
Qed.

Lemma frame_keys avatar table :
  avatar_frames avatar = Some table ->
  entry_key (avatar_name avatar) <$> frame_entries avatar
  = map_to_list table ≫= (fun entry =>
      (fun i => cacheKey (avatar_name avatar) (fst entry) (Z.of_nat i))
        <$> seq 0 (length (snd entry))).
Proof.
  intros H. unfold frame_entries. rewrite H, fmap_bind_list.
  apply list_bind_ext; [|reflexivity].
  intros entry. apply direction_keys.
Qed.

(** No two visited frames of an avatar share a cache key. *)
Lemma frame_keys_NoDup avatar :
  NoDup (entry_key (avatar_name avatar) <$> frame_entries avatar).
Proof.
  destruct (avatar_frames avatar) as [table|] eqn:Hf.
  - rewrite (frame_keys avatar table Hf). apply NoDup_bind.
    + intros [d1 arr1] [d2 arr2] key H1 H2 Hk1 Hk2.
      apply list_elem_of_fmap in Hk1 as (i1 & -> & _).
      apply list_elem_of_fmap in Hk2 as (i2 & Hk & _).
      apply cacheKey_inj in Hk as [Hd _]. cbn [fst] in Hd. subst d2.
      apply elem_of_map_to_list in H1, H2. congruence.
    + intros [d arr] _. apply NoDup_fmap_2_strong; [|apply NoDup_seq].
      intros i j _ _ Hk. apply cacheKey_inj in Hk as [_ Hk]. lia.
    + apply NoDup_map_to_list.
  - unfold frame_entries. rewrite Hf. constructor.
Qed.

(** A frame of the table is visited. *)
Lemma frame_key_visited avatar table d (arr : list string) (i : nat) frameData :
  avatar_frames avatar = Some table -> table !! d = Some arr ->
  arr !! i = Some frameData ->
  (d, Z.of_nat i, frameData) ∈ frame_entries avatar.
Proof.
  intros Hf Hd Hi. unfold frame_entries. rewrite Hf.
  apply list_elem_of_bind. exists (d, arr). split.
  - apply list_elem_of_fmap. exists (Z.of_nat i, frameData).
    split; [reflexivity|]. unfold indexed.
    apply (elem_of_lookup_imap_2 (fun i x => (Z.of_nat i, x)) arr frameData i Hi).
  - apply elem_of_map_to_list. exact Hd.
Qed.

Lemma NoDup_fmap_filter {A B} (f : A -> B) (p : A -> bool) (l : list A) :
  NoDup (f <$> l) -> NoDup (f <$> List.filter p l).
Proof.
  induction l as [|x l IH]; cbn; [intros H; exact H|].
  intros H. apply NoDup_cons in H as [Hx Hl].
  destruct (p x); [|apply IH, Hl].
  cbn. apply NoDup_cons. split; [|apply IH, Hl].
  intros Hin. apply Hx.
  apply list_elem_of_fmap in Hin as (y & Hy & Hin).
  apply list_elem_of_fmap. exists y. split; [exact Hy|].
  apply list_elem_of_In. apply list_elem_of_In, List.filter_In in Hin. tauto.
Qed.

Lemma started_keys avatar cache :
  pending_cacheKey <$> started_by_preload avatar cache
  = entry_key (avatar_name avatar)
      <$> List.filter (uncached cache (avatar_name avatar)) (frame_entries avatar).
Proof.
  unfold started_by_preload. rewrite <- list_fmap_compose. reflexivity.
Qed.

(** One call creates exactly one image for a visited key without a cache
    entry, and none for a key that has one. *)
Lemma decodes_for_started avatar cache table d (arr : list string) (i : nat)
    frameData :
  avatar_frames avatar = Some table -> table !! d = Some arr ->
  arr !! i = Some frameData ->
  decodes_for (cacheKey (avatar_name avatar) d (Z.of_nat i))
    (started_by_preload avatar cache)
  = match cache !! cacheKey (avatar_name avatar) d (Z.of_nat i) with
    | None => 1%nat
    | Some _ => 0%nat
    end.
Proof.
  intros Hf Hd Hi. unfold decodes_for. rewrite started_keys.
  set (name := avatar_name avatar).
  set (key := cacheKey name d (Z.of_nat i)).
  pose proof (frame_key_visited avatar table d arr i frameData Hf Hd Hi) as Hvis.
  destruct (cache !! key) as [c|] eqn:Hc.
  - apply count_occ_not_In. intros Hin.
    apply list_elem_of_In, list_elem_of_fmap in Hin as (e & He & Hin).
    apply list_elem_of_In, List.filter_In in Hin as [_ Hun].
    unfold uncached in Hun. fold name in Hun. rewrite <- He, Hc in Hun.
    discriminate.
  - apply NoDup_count_occ'.
    + apply NoDup_ListNoDup, NoDup_fmap_filter, frame_keys_NoDup.
    + apply list_elem_of_In, list_elem_of_fmap.
      exists (d, Z.of_nat i, frameData). split; [reflexivity|].
      apply list_elem_of_In, List.filter_In. split.
      * apply list_elem_of_In. exact Hvis.
      * unfold uncached, entry_key. cbn [fst snd]. fold name. fold key.
        rewrite Hc. reflexivity.
Qed.

Lemma decodes_for_app key l1 l2 :
  decodes_for key (l1 ++ l2) = (decodes_for key l1 + decodes_for key l2)%nat.
Proof. unfold decodes_for. rewrite fmap_app. apply count_occ_app. Qed.

(** C2, as stated, fails: with no load completed, the second call
    for the same avatar creates a second image for the same key. *)
Lemma preload_twice_decodes_twice :
  avatarImageCache (preloadAvatarImages knight (preloadAvatarImages knight connected))
    = ∅
  /\ decodes_for (cacheKey "knight" "south" 0)
       (loading (preloadAvatarImages knight (preloadAvatarImages knight connected)))
     = 2%nat
  /\ decodes_for (cacheKey "knight" "south" 0) (loading joined_twice) = 2%nat.
Proof. vm_compute. repeat split. Qed.

(** C2, amended: a call of the preloader creates exactly one
    image for every (direction, frameIndex) of the avatar whose key has no
    entry in the cache at that moment, and none for a key that has one;
    the call itself does not fill the cache.  So two calls before any load
    completes create two images per key, and only a completed load stops
    further decodes of its key. *)
Theorem preloadAvatarImages_twice (avatar : Avatar) (g : GameClient)
    (table : gmap string (list string)) (d : string) (arr : list string)
    (i : nat) (frameData : string)
    (Hframes : avatar_frames avatar = Some table)
    (Hd : table !! d = Some arr)
    (Hi : arr !! i = Some frameData) :
  let key := cacheKey (avatar_name avatar) d (Z.of_nat i) in
  let g1 := preloadAvatarImages avatar g in
  let g2 := preloadAvatarImages avatar g1 in
  avatarImageCache g1 = avatarImageCache g
  /\ avatarImageCache g2 = avatarImageCache g
  /\ (avatarImageCache g !! key = None ->
      decodes_for key (loading g1) = (decodes_for key (loading g) + 1)%nat
      /\ decodes_for key (loading g2) = (decodes_for key (loading g) + 2)%nat)
  /\ (is_Some (avatarImageCache g !! key) ->
      decodes_for key (loading g1) = decodes_for key (loading g)
      /\ decodes_for key (loading g2) = decodes_for key (loading g)).
Proof.
  intros key g1 g2.
  destruct (preloadAvatarImages_spec avatar g) as [Hc1 Hl1].
  destruct (preloadAvatarImages_spec avatar g1) as [Hc2 Hl2].
  fold g1 in Hc1, Hl1. fold g2 in Hc2, Hl2.
  rewrite Hc1 in Hc2, Hl2.
  pose proof (decodes_for_started avatar (avatarImageCache g) table d arr i
                frameData Hframes Hd Hi) as Hn.
  fold key in Hn.
  split; [exact Hc1|]. split; [exact Hc2|].
  rewrite Hl2, Hl1, !decodes_for_app, Hn. split.
  - intros Hnone. rewrite Hnone. split; lia.
  - intros [c Hsome]. rewrite Hsome. split; lia.
Qed.

Lemma preloadAvatarImages_twice_witness :
  avatar_frames knight = Some knight_frames
  /\ knight_frames !! "south" = Some ["S0"; "S1"]
  /\ ["S0"; "S1"] !! 1%nat = Some "S1"
  /\ avatarImageCache connected !! cacheKey "knight" "south" 1 = None
  /\ decodes_for (cacheKey "knight" "south" 1)
       (loading (preloadAvatarImages knight (preloadAvatarImages knight connected)))
     = (decodes_for (cacheKey "knight" "south" 1) (loading connected) + 2)%nat.
Proof.
  assert (knight_frames !! "south" = Some ["S0"; "S1"]) as Hd
    by (vm_compute; reflexivity).
  assert (avatarImageCache connected !! cacheKey "knight" "south" 1 = None) as Hn
    by (vm_compute; reflexivity).
  split; [reflexivity|]. split; [exact Hd|]. split; [reflexivity|].
  split; [exact Hn|].
  exact (proj2 (proj1 (proj2 (proj2
    (preloadAvatarImages_twice knight connected knight_frames "south"
       ["S0"; "S1"] 1 "S1" eq_refl Hd eq_refl))) Hn)).
Defined.

(** Once the load of a key has completed, a further call does not decode
    it again. *)
Example preload_after_load :
  let g := run connected
             [MessageReceived (player_joined alice knight);
              ImageLoaded 0 32 48; ImageLoaded 1 32 48; ImageLoaded 2 32 48;
              ImageLoaded 3 32 48; ImageLoaded 4 32 48] in
  length (loading g) = 5%nat
  /\ loading (preloadAvatarImages knight g) = loading g.
Proof. vm_compute. split; reflexivity. Qed.

(** ** Rendering *)

(** West resolves to the east frames, at every index. *)
Lemma getAvatarFrame_west_is_east avatar animationFrame :
  getAvatarFrame avatar "west" animationFrame
  = getAvatarFrame avatar "east" animationFrame.
Proof. reflexivity. Qed.

(** The mirrored draw lands on the rectangle of the unmirrored one, right
    edge first: the image is flipped about its own centre. *)
Lemma west_draw_in_place (drawX displayWidth : Q) :
  let '(l, r) := device_extent (-1) (- drawX - displayWidth) displayWidth in
  let '(l0, r0) := device_extent 1 drawX displayWidth in
  l == r0 /\ r == l0.
Proof. unfold device_extent. split; ring. Qed.

(** The sprite that [drawPlayer] draws is looked up under the player's own
    [facing] and [animationFrame]: without an entry under that key nothing
    is drawn. *)
Lemma drawPlayer_without_entry g player avatar :
  avatars g !! player_avatar player = Some avatar ->
  avatarImageCache g
    !! cacheKey (avatar_name avatar) (player_facing player)
         (or_zero (player_animationFrame player)) = None ->
  drawPlayer g player = [].
Proof.
  intros Ha Hc. unfold drawPlayer. rewrite Ha. cbn zeta.
  destruct (_ || _); [reflexivity|].
  destruct (negb _); [reflexivity|]. rewrite Hc. reflexivity.
Qed.

(** C1 on the code: west resolves to the east frame "E0", whose
    decoded image is in the cache under the east key; the renderer looks
    under the west key, which the preloader never fills, and draws
    nothing for the west-facing player, while the east-facing one is
    drawn with that image. *)
Theorem west_player_not_drawn :
  getAvatarFrame knight "west" (Some 0%Z) = Some "E0"
  /\ getAvatarFrame knight "east" (Some 0%Z) = Some "E0"
  /\ cached_image <$> (avatarImageCache all_loaded !! cacheKey "knight" "east" 0)
     = Some (mkImage "E0" 32 48)
  /\ avatarImageCache all_loaded !! cacheKey "knight" "west" 0 = None
  /\ drawPlayer all_loaded west_walker = []
  /\ exists dx dy dw dh label,
       drawPlayer all_loaded east_walker
       = DrawImage (mkImage "E0" 32 48) dx dy dw dh :: label.
Proof.
  split; [vm_compute; reflexivity|]. split; [vm_compute; reflexivity|].
  split; [vm_compute; reflexivity|]. split; [vm_compute; reflexivity|].
  split; [vm_compute; reflexivity|].
  do 5 eexists. vm_compute. reflexivity.
Qed.

(** With a west list in the avatar, the image drawn for a west-facing
    player is the decoded west frame, flipped, not the east one. *)
Example west_player_drawn_from_west_frames :
  getAvatarFrame knight_with_west "west" (Some 0%Z) = Some "E0"
  /\ exists dx dy dw dh label,
       drawPlayer all_loaded_with_west west_walker
       = CtxSave :: CtxScale (-1) 1
           :: DrawImage (mkImage "W0" 32 48) dx dy dw dh :: CtxRestore :: label.
Proof.
  split; [vm_compute; reflexivity|].
  do 5 eexists. vm_compute. reflexivity.
Qed.

(** C9 on the code: for the frame index 5 on the two south
    frames, [getAvatarFrame] clamps to the last frame "S1", whose image is
    in the cache under index 1; the renderer looks under index 5 and draws
    nothing. *)
Theorem overrun_player_not_drawn :
  player_animationFrame overrun = Some 5%Z
  /\ knight_frames !! "south" = Some ["S0"; "S1"]
  /\ getAvatarFrame knight "south" (Some 5%Z) = Some "S1"
  /\ cached_image <$> (avatarImageCache all_loaded !! cacheKey "knight" "south" 1)
     = Some (mkImage "S1" 32 48)
  /\ avatarImageCache all_loaded !! cacheKey "knight" "south" 5 = None
  /\ drawPlayer all_loaded overrun = [].
Proof.
  split; [reflexivity|]. split; [vm_compute; reflexivity|].
  split; [vm_compute; reflexivity|]. split; [vm_compute; reflexivity|].
  split; vm_compute; reflexivity.
Qed.

(** In range the same player is drawn. *)
Example in_range_player_drawn :
  exists dx dy dw dh label,
    drawPlayer all_loaded
      (mkPlayer "p5-south" "Sue" 900 500 "south" "knight" (Some 1%Z))
    = DrawImage (mkImage "S1" 32 48) dx dy dw dh :: label.
Proof. do 5 eexists. vm_compute. reflexivity. Qed.

(** * Further properties of the client *)

(** ** Intents and the socket *)

Lemma sent_handleKeyDown_closed g code :
  ~ channel_open g -> sent (handleKeyDown code g) = sent g.
Proof.
  intros Hc. unfold handleKeyDown. destruct (movementKeys !! code); [|reflexivity].
  unfold sendMoveCommand. rewrite send_if_open_closed; [reflexivity|exact Hc].
Qed.

Lemma sent_handleKeyUp_closed g code :
  ~ channel_open g -> sent (handleKeyUp code g) = sent g.
Proof.
  intros Hc. unfold handleKeyUp. destruct (movementKeys !! code); [|reflexivity].
  cbn zeta. destruct (decide _); [|reflexivity].
  unfold sendStopCommand. rewrite send_if_open_closed; [reflexivity|exact Hc].
Qed.

Lemma handleKeyDown_closed g code :
  ~ channel_open g ->
  handleKeyDown code g
  = match movementKeys !! code with
    | Some _ => set_pressedKeys ({[code]} ∪ pressedKeys g) g
    | None => g
    end.
Proof.
  intros Hc. unfold handleKeyDown. destruct (movementKeys !! code); [|reflexivity].
  unfold sendMoveCommand. rewrite send_if_open_closed; [reflexivity|exact Hc].
Qed.

Lemma handleKeyUp_closed g code :
  ~ channel_open g ->
  handleKeyUp code g
  = match movementKeys !! code with
    | Some _ => set_pressedKeys (pressedKeys g ∖ {[code]}) g
    | None => g
    end.
Proof.
  intros Hc. unfold handleKeyUp. destruct (movementKeys !! code); [|reflexivity].
  cbn zeta. destruct (decide _); [|reflexivity].
  unfold sendStopCommand. rewrite send_if_open_closed; [reflexivity|exact Hc].
Qed.

(** X1: without an open channel ([ws] null, or its state not
    OPEN) a key event sends nothing and queues nothing; the held set is
    still updated as for any key event. *)
Theorem intents_dropped_without_channel (g : GameClient) (code : string)
    (Hclosed : ~ channel_open g) :
  sent (handleKeyDown code g) = sent g
  /\ sent (handleKeyUp code g) = sent g
  /\ ws (handleKeyDown code g) = ws g
  /\ ws (handleKeyUp code g) = ws g
  /\ pressedKeys (handleKeyDown code g) = held_keys (pressedKeys g) [KeyDown code]
  /\ pressedKeys (handleKeyUp code g) = held_keys (pressedKeys g) [KeyUp code].
Proof.
  split; [apply sent_handleKeyDown_closed, Hclosed|].
  split; [apply sent_handleKeyUp_closed, Hclosed|].
  split; [|split].
  - rewrite (handleKeyDown_closed g code Hclosed).
    destruct (movementKeys !! code); reflexivity.
  - rewrite (handleKeyUp_closed g code Hclosed).
    destruct (movementKeys !! code); reflexivity.
  - split.
    + exact (pressedKeys_step g (KeyDown code)).
    + exact (pressedKeys_step g (KeyUp code)).
Qed.

Lemma disconnected_not_open : ~ channel_open disconnected.
Proof.
  intros (w & Hw & Hr). vm_compute in Hw. injection Hw as <-. discriminate Hr.
Qed.

Lemma intents_dropped_without_channel_witness :
  sent (handleKeyDown "ArrowUp" disconnected) = sent disconnected
  /\ "ArrowUp" ∈ pressedKeys (handleKeyDown "ArrowUp" disconnected).
Proof.
  pose proof (intents_dropped_without_channel disconnected "ArrowUp"
                disconnected_not_open) as (H1 & _ & _ & _ & H5 & _).
  split; [exact H1|]. rewrite H5.
  apply (bool_decide_unpack _). vm_compute. exact I.
Defined.

(** While the socket is not open, key events leave it as it is. *)
Lemma ws_run_keys_closed ks : forall g,
  forallb is_key_event ks = true -> ~ channel_open g ->
  ws (run g ks) = ws g.
Proof.
  induction ks as [|e ks IH]; intros g Hk Hc; [reflexivity|].
  cbn [forallb] in Hk. apply andb_prop in Hk as [He Hk].
  change (run g (e :: ks)) with (run (step g e) ks).
  assert (ws (step g e) = ws g) as Hws.
  { destruct e; try discriminate; cbn [step].
    - rewrite (handleKeyDown_closed g code Hc).
      destruct (movementKeys !! code); reflexivity.
    - rewrite (handleKeyUp_closed g code Hc).
      destruct (movementKeys !! code); reflexivity. }
  rewrite IH; [exact Hws|exact Hk|].
  unfold channel_open. rewrite Hws. exact Hc.
Qed.

(** X2: nothing is buffered across a reconnect.  Whatever keys
    go down or up while the new socket is still connecting, they are
    tracked in the held set, and when the socket opens the only message on
    it is the join request. *)
Theorem no_intent_replay_on_reconnect (g : GameClient) (ks : list Event)
    (Hkeys : forallb is_key_event ks = true) :
  let g' := ws_onopen (run (connectToServer false g) ks) in
  sent g' = [JoinGame "Dawn"]
  /\ channel_open g'
  /\ pressedKeys g' = held_keys (pressedKeys g) ks.
Proof.
  intros g'. subst g'.
  set (g1 := connectToServer false g).
  assert (~ channel_open g1) as Hc.
  { intros (w & Hw & Hr). cbn in Hw. injection Hw as <-. discriminate Hr. }
  pose proof (ws_run_keys_closed ks g1 Hkeys Hc) as Hws.
  assert (ws (ws_onopen (run g1 ks)) = Some (mkWebSocket OPEN [JoinGame "Dawn"]))
    as Hopen.
  { unfold ws_onopen, joinGame, set_readyState. rewrite Hws. reflexivity. }
  split; [unfold sent; rewrite Hopen; reflexivity|]. split.
  - eexists. split; [exact Hopen|reflexivity].
  - rewrite (frame_ws_onopen pressedKeys) by independent.
    rewrite pressedKeys_run. reflexivity.
Qed.

Lemma no_intent_replay_on_reconnect_witness :
  sent (ws_onopen (run (connectToServer false disconnected)
                     [KeyDown "ArrowUp"; KeyDown "ArrowLeft"; KeyUp "ArrowUp"]))
  = [JoinGame "Dawn"].
Proof.
  exact (proj1 (no_intent_replay_on_reconnect disconnected
                  [KeyDown "ArrowUp"; KeyDown "ArrowLeft"; KeyUp "ArrowUp"]
                  eq_refl)).
Defined.

(** *** The join request comes first *)

Lemma join_first_send_if_open m g : join_first g -> join_first (send_if_open m g).
Proof.
  unfold send_if_open. destruct (ws g) as [w|] eqn:Hw; [|tauto].
  destruct (is_open w) eqn:Ho; [|tauto].
  unfold join_first. rewrite Hw. cbn.
  intros [[Hnil Hno]|[rest Hrest]].
  - exfalso. apply Hno. unfold is_open in Ho.
    destruct (readyState w); try discriminate. reflexivity.
  - right. exists (rest ++ [m]). rewrite Hrest. reflexivity.
Qed.

Lemma join_first_frame g g' : ws g' = ws g -> join_first g -> join_first g'.
Proof. unfold join_first. intros ->. tauto. Qed.

Lemma join_first_attemptReconnect g :
  join_first g -> join_first (attemptReconnect g).
Proof.
  apply join_first_frame. apply (frame_attemptReconnect ws); independent.
Qed.

Lemma join_first_step g e : join_first g -> join_first (step g e).
Proof.
  intros H. destruct e as [| | |message|[|]|code|code|n w h| |]; cbn [step].
  - unfold join_first in H. destruct (ws g) as [w|] eqn:Hw.
    + unfold ws_onopen, set_readyState. rewrite Hw.
      unfold joinGame, join_first. cbn.
      right. destruct H as [[-> _]|[rest ->]]; eexists; reflexivity.
    + unfold ws_onopen, set_readyState. rewrite Hw.
      unfold joinGame, join_first.
      change (ws (set_reconnectAttempts 0 g)) with (ws g).
      rewrite Hw. change (ws (set_reconnectAttempts 0 g)) with (ws g).
      rewrite Hw. exact I.
  - unfold ws_onclose. apply join_first_attemptReconnect.
    unfold join_first in H. destruct (ws g) as [w|] eqn:Hw.
    + unfold set_readyState. rewrite Hw. unfold join_first. cbn.
      destruct H as [[-> _]|[rest ->]].
      * left. split; [reflexivity|discriminate].
      * right. eexists. reflexivity.
    + unfold set_readyState. rewrite Hw. unfold join_first. rewrite Hw. exact I.
  - exact H.
  - apply (join_first_frame g); [|exact H].
    apply (frame_handleServerMessage ws); independent.
  - apply join_first_attemptReconnect, H.
  - unfold join_first. cbn. left. split; [reflexivity|discriminate].
  - unfold handleKeyDown. destruct (movementKeys !! code); [|exact H].
    apply join_first_send_if_open. exact H.
  - unfold handleKeyUp. destruct (movementKeys !! code); [|exact H].
    cbn zeta. destruct (decide _); [|exact H].
    apply join_first_send_if_open. exact H.
  - apply (join_first_frame g); [|exact H]. apply (frame_img_onload ws); independent.
  - apply (join_first_frame g); [|exact H]. apply (frame_drawWorldMap ws); independent.
  - destruct (rendering g); [|exact H].
    apply (join_first_frame g); [|exact H]. apply (frame_render ws); independent.
Qed.

Lemma join_first_run events : forall g, join_first g -> join_first (run g events).
Proof.
  induction events as [|e events IH]; intros g H; [exact H|].
  change (run g (e :: events)) with (run (step g e) events).
  apply IH, join_first_step, H.
Qed.

Lemma join_first_new cw ch throws : join_first (GameClient_new cw ch throws).
Proof.
  unfold GameClient_new, init. destruct throws.
  - apply join_first_attemptReconnect. exact I.
  - left. split; [reflexivity|discriminate].
Qed.

(** X3: on every socket the client ever uses, the first message
    handed to it is the join request; a move or a stop is only ever sent
    after it, and an open channel has sent it. *)
Theorem join_request_comes_first (cw ch : Q) (throws : bool)
    (events : list Event) :
  let g := run (GameClient_new cw ch throws) events in
  (sent g = [] \/ exists rest, sent g = JoinGame "Dawn" :: rest)
  /\ (channel_open g -> exists rest, sent g = JoinGame "Dawn" :: rest).
Proof.
  intros g.
  assert (join_first g) as H by apply join_first_run, join_first_new.
  unfold join_first in H. unfold sent, channel_open.
  destruct (ws g) as [w|]; [|split; [left; reflexivity|]].
  - destruct H as [[Hnil Hno]|[rest Hrest]].
    + split; [left; exact Hnil|].
      intros (w' & Hw' & Hr). injection Hw' as <-. contradiction.
    + split; [right|intros _]; exists rest; exact Hrest.
  - intros (w' & Hw' & _). discriminate.
Qed.

(** *** The held set holds tracked keys only *)



(** ** Reconnection, over all runs *)

Lemma backoff_ws_onopen g :
  backoff (ws_onopen g) = (0%nat, maxReconnectAttempts g, timers g).
Proof.
  unfold ws_onopen.
  rewrite (frame_joinGame backoff) by independent. unfold backoff.
  cbn [reconnectAttempts maxReconnectAttempts timers set_reconnectAttempts].
  pose proof (frame_set_readyState backoff ltac:(independent) OPEN g) as H.
  unfold backoff in H. injection H as _ -> ->. reflexivity.
Qed.

Lemma backoff_delay_listed k :
  (1 <= k <= 5)%nat -> backoff_delay k ∈ reconnect_delays.
Proof.
  intros Hk. unfold reconnect_delays.
  assert (k = 1 \/ k = 2 \/ k = 3 \/ k = 4 \/ k = 5)%nat
    as [->|[->|[->|[->| ->]]]] by lia;
    apply list_elem_of_In; cbn; tauto.
Qed.

Lemma backoff_bounded_of g g' :
  backoff g' = backoff g -> backoff_bounded g -> backoff_bounded g'.
Proof.
  unfold backoff, backoff_bounded. intros H. injection H as -> -> ->. tauto.
Qed.

Lemma backoff_bounded_attemptReconnect g :
  backoff_bounded g -> backoff_bounded (attemptReconnect g).
Proof.
  intros (Hm & Ha & Ht).
  pose proof (backoff_attemptReconnect g) as H.
  destruct (reconnectAttempts g <? maxReconnectAttempts g)%nat eqn:Hlt.
  - apply Nat.ltb_lt in Hlt. unfold backoff in H. injection H as H1 H2 H3.
    unfold backoff_bounded. rewrite H1, H2, H3. split; [exact Hm|].
    split; [lia|]. apply Forall_app. split; [exact Ht|].
    apply Forall_singleton, backoff_delay_listed. lia.
  - apply (backoff_bounded_of g); [exact H|]. split; [exact Hm|]. split; assumption.
Qed.

Lemma backoff_bounded_step g e : backoff_bounded g -> backoff_bounded (step g e).
Proof.
  intros H. destruct (is_open_event e) eqn:Ho.
  - destruct e; try discriminate. cbn [step].
    pose proof (backoff_ws_onopen g) as Hb. unfold backoff in Hb.
    injection Hb as H1 H2 H3. destruct H as (Hm & Ha & Ht).
    unfold backoff_bounded. rewrite H1, H2, H3.
    split; [exact Hm|]. split; [lia|exact Ht].
  - destruct (is_failure e) eqn:Hf.
    + apply (backoff_bounded_of (attemptReconnect g)).
      * apply backoff_step_failure, Hf.
      * apply backoff_bounded_attemptReconnect, H.
    + apply (backoff_bounded_of g); [|exact H].
      apply backoff_step_other; assumption.
Qed.

Lemma backoff_bounded_new cw ch throws :
  backoff_bounded (GameClient_new cw ch throws).
Proof.
  unfold GameClient_new, init. destruct throws.
  - apply backoff_bounded_attemptReconnect.
    split; [reflexivity|]. split; [cbn; lia|constructor].
  - split; [reflexivity|]. split; [cbn; lia|constructor].
Qed.

(** X5: in every state the client can reach, through failures,
    opens and anything else in any order, the attempt counter is at most 5
    and every timer it ever armed has one of the delays 2000, 4000, 6000,
    8000, 10000 ms. *)
Theorem reconnect_state_bounded (cw ch : Q) (throws : bool)
    (events : list Event) :
  let g := run (GameClient_new cw ch throws) events in
  (reconnectAttempts g <= 5)%nat
  /\ Forall (fun d => d ∈ reconnect_delays) (timers g).
Proof.
  intros g. subst g.
  assert (backoff_bounded (run (GameClient_new cw ch throws) events))
    as (_ & Ha & Ht).
  { generalize (backoff_bounded_new cw ch throws).
    generalize (GameClient_new cw ch throws). 
    induction events as [|e events IH]; intros g H; [exact H|].
    change (run g (e :: events)) with (run (step g e) events).
    apply IH, backoff_bounded_step, H. }
  split; assumption.
Qed.

(** ** Entity table, the other messages *)

Lemma set_players_id g : set_players (players g) g = g.
Proof. destruct g; reflexivity. Qed.

(** X6: [player_left] removes exactly the named entry; naming an
    identifier that is not in the table changes nothing at all; and the
    handler never touches [myPlayer], [myPlayerId] or the camera, also
    when the identifier is the client's own. *)
Theorem handlePlayerLeft_removes (g : GameClient) (id : string) :
  (forall k, players (handlePlayerLeft id g) !! k
             = if decide (k = id) then None else players g !! k)
  /\ (players g !! id = None -> handlePlayerLeft id g = g)
  /\ myPlayer (handlePlayerLeft id g) = myPlayer g
  /\ myPlayerId (handlePlayerLeft id g) = myPlayerId g
  /\ viewport (handlePlayerLeft id g) = viewport g.
Proof.
  unfold handlePlayerLeft. split; [|split; [|repeat split]].
  - intros k. cbn [players set_players]. destruct (decide (k = id)) as [->|Hne].
    + apply lookup_delete_eq.
    + apply lookup_delete_ne. congruence.
  - intros Hnone. rewrite delete_id by exact Hnone. apply set_players_id.
Qed.

Lemma handlePlayerLeft_removes_witness :
  players two_players !! "p9-nobody" = None
  /\ handlePlayerLeft "p9-nobody" two_players = two_players
  /\ players (handlePlayerLeft "p2-bob" two_players) !! "p2-bob" = None
  /\ players (handlePlayerLeft "p2-bob" two_players) !! "p1-alice" = Some alice.
Proof.
  assert (players two_players !! "p9-nobody" = None) as Hn
    by (vm_compute; reflexivity).
  split; [exact Hn|]. split.
  - exact (proj1 (proj2 (handlePlayerLeft_removes two_players "p9-nobody")) Hn).
  - split.
    + rewrite (proj1 (handlePlayerLeft_removes two_players "p2-bob") "p2-bob").
      reflexivity.
    + rewrite (proj1 (handlePlayerLeft_removes two_players "p2-bob") "p1-alice").
      vm_compute. reflexivity.
Defined.

Lemma players_handlePlayerJoined player avatar g :
  players (handlePlayerJoined player avatar g)
  = <[player_id player := player]> (players g).
Proof.
  unfold handlePlayerJoined. cbn zeta.
  rewrite (frame_preloadAvatarImages players) by independent. reflexivity.
Qed.

Lemma avatars_handlePlayerJoined player avatar g :
  avatars (handlePlayerJoined player avatar g)
  = <[avatar_name avatar := avatar]> (avatars g).
Proof.
  unfold handlePlayerJoined. cbn zeta.
  rewrite (frame_preloadAvatarImages avatars) by independent. reflexivity.
Qed.

(** X7: [player_joined] stores the player under its identifier
    and the avatar under its name, replacing what was there (the last
    write wins) and leaving every other entry; it does not refresh
    [myPlayer] or the camera, even when the identifier is the client's own. *)
Theorem handlePlayerJoined_upserts (g : GameClient) (player : Player)
    (avatar : Avatar) :
  let g' := handlePlayerJoined player avatar g in
  (forall k, players g' !! k
             = if decide (k = player_id player) then Some player
               else players g !! k)
  /\ (forall k, avatars g' !! k
                = if decide (k = avatar_name avatar) then Some avatar
                  else avatars g !! k)
  /\ myPlayer g' = myPlayer g
  /\ viewport g' = viewport g
  /\ avatarImageCache g' = avatarImageCache g.
Proof.
  intros g'. subst g'. split; [|split; [|split; [|split]]].
  - intros k. rewrite players_handlePlayerJoined.
    destruct (decide (k = player_id player)) as [->|Hne].
    + apply lookup_insert_eq.
    + apply lookup_insert_ne. congruence.
  - intros k. rewrite avatars_handlePlayerJoined.
    destruct (decide (k = avatar_name avatar)) as [->|Hne].
    + apply lookup_insert_eq.
    + apply lookup_insert_ne. congruence.
  - apply (frame_handlePlayerJoined myPlayer); independent.
  - apply (frame_handlePlayerJoined viewport); independent.
  - apply (frame_handlePlayerJoined avatarImageCache); independent.
Qed.

(** X8: a leave undoes a join on the player table, for a player
    that was not there before, but not on the avatar table: the avatar
    stays known. *)
Theorem joined_then_left (g : GameClient) (player : Player) (avatar : Avatar)
    (Hnew : players g !! player_id player = None) :
  let g' := handlePlayerLeft (player_id player)
              (handlePlayerJoined player avatar g) in
  players g' = players g
  /\ avatars g' !! avatar_name avatar = Some avatar.
Proof.
  intros g'. subst g'. unfold handlePlayerLeft.
  cbn [players avatars set_players].
  rewrite players_handlePlayerJoined, avatars_handlePlayerJoined. split.
  - rewrite delete_insert_eq. apply delete_id. exact Hnew.
  - apply lookup_insert_eq.
Qed.

Lemma joined_then_left_witness :
  players connected !! player_id bob = None
  /\ players (handlePlayerLeft (player_id bob)
                (handlePlayerJoined bob knight connected)) = players connected
  /\ avatars (handlePlayerLeft (player_id bob)
                (handlePlayerJoined bob knight connected)) !! "knight"
     = Some knight.
Proof.
  assert (players connected !! player_id bob = None) as Hn
    by (vm_compute; reflexivity).
  split; [exact Hn|]. exact (joined_then_left connected bob knight Hn).
Defined.

(** ** The join response *)

Lemma handleJoinGameResponse_eq playerId ps avs g :
  handleJoinGameResponse playerId ps avs g
  = match myPlayer (joined_snapshot playerId ps avs g) with
    | Some _ =>
        startRenderLoop (centerViewportOnPlayer (joined_snapshot playerId ps avs g))
    | None => joined_snapshot playerId ps avs g
    end.
Proof. reflexivity. Qed.

Lemma session_joined_snapshot playerId ps avs g :
  session (joined_snapshot playerId ps avs g)
  = (ps, avs, Some playerId, ps !! playerId).
Proof.
  unfold joined_snapshot. cbn zeta.
  rewrite (foldl_preserves session); [reflexivity|].
  intros a b. apply (frame_preloadAvatarImages session). independent.
Qed.

Lemma screen_joined_snapshot playerId ps avs g :
  screen (joined_snapshot playerId ps avs g) = screen g.
Proof.
  unfold joined_snapshot. cbn zeta.
  rewrite (foldl_preserves screen); [reflexivity|].
  intros a b. apply (frame_preloadAvatarImages screen). independent.
Qed.

(** X9: a successful join response replaces the player table and
    the avatar table by the snapshot's, whatever they held, records the
    assigned identifier, and takes [myPlayer] from the snapshot. *)
Theorem handleJoinGameResponse_replaces (g : GameClient) (playerId : string)
    (ps : gmap string Player) (avs : gmap string Avatar) :
  let g' := handleJoinGameResponse playerId ps avs g in
  players g' = ps /\ avatars g' = avs
  /\ myPlayerId g' = Some playerId /\ myPlayer g' = ps !! playerId
  /\ avatarImageCache g' = avatarImageCache g.
Proof.
  intros g'. subst g'. rewrite handleJoinGameResponse_eq.
  pose proof (session_joined_snapshot playerId ps avs g) as Hs.
  assert (avatarImageCache (joined_snapshot playerId ps avs g)
          = avatarImageCache g) as Hc.
  { unfold joined_snapshot. cbn zeta.
    rewrite (foldl_preserves avatarImageCache); [reflexivity|].
    intros a b. apply (frame_preloadAvatarImages avatarImageCache). independent. }
  destruct (myPlayer (joined_snapshot playerId ps avs g)) eqn:Hme.
  - assert (session (startRenderLoop
              (centerViewportOnPlayer (joined_snapshot playerId ps avs g)))
            = session (joined_snapshot playerId ps avs g)) as Hf.
    { rewrite (frame_startRenderLoop session) by independent.
      apply (frame_centerViewportOnPlayer session). independent. }
    rewrite Hs in Hf. unfold session in Hf. injection Hf as H1 H2 H3 H4.
    repeat split; try assumption.
    rewrite (frame_startRenderLoop avatarImageCache) by independent.
    rewrite (frame_centerViewportOnPlayer avatarImageCache) by independent.
    exact Hc.
  - unfold session in Hs. injection Hs as H1 H2 H3 H4.
    repeat split; assumption.
Qed.

(** X10: when the snapshot of a join response has no entry for
    the assigned identifier, the handler stops at its log statement: the
    tables are stored, but the camera is not centred, the render loop is
    not started and nothing is drawn. *)
Theorem join_without_own_player (g : GameClient) (playerId : string)
    (ps : gmap string Player) (avs : gmap string Avatar)
    (Hmissing : ps !! playerId = None) :
  let g' := handleJoinGameResponse playerId ps avs g in
  myPlayer g' = None
  /\ players g' = ps
  /\ viewport g' = viewport g
  /\ rendering g' = rendering g
  /\ canvas_ops g' = canvas_ops g.
Proof.
  intros g'. subst g'. rewrite handleJoinGameResponse_eq.
  pose proof (session_joined_snapshot playerId ps avs g) as Hs.
  pose proof (screen_joined_snapshot playerId ps avs g) as Hv.
  unfold session in Hs. injection Hs as Hp _ _ Hme. rewrite Hmissing in Hme.
  rewrite Hme. unfold screen in Hv. injection Hv as _ _ Hview _ _ Hr Hops.
  repeat split; assumption.
Qed.

Lemma join_without_own_player_witness :
  rendering (step connected (MessageReceived join_without_me)) = false
  /\ players (step connected (MessageReceived join_without_me))
     = {[ "p2-bob" := bob ]}.
Proof.
  assert (({[ "p2-bob" := bob ]} : gmap string Player) !! "p7-ghost" = None)
    as Hm by (vm_compute; reflexivity).
  pose proof (join_without_own_player connected "p7-ghost" {[ "p2-bob" := bob ]}
                ∅ Hm) as (_ & Hp & _ & Hr & _).
  split; [exact Hr|exact Hp].
Defined.

(** X11: when the snapshot contains the assigned player, the
    camera is centred on that player first, then the render loop starts,
    and the first thing asked of the canvas is to clear it. *)
Theorem join_with_own_player (g : GameClient) (playerId : string)
    (ps : gmap string Player) (avs : gmap string Avatar) (p : Player)
    (Hpresent : ps !! playerId = Some p) :
  let g' := handleJoinGameResponse playerId ps avs g in
  myPlayer g' = Some p
  /\ rendering g' = true
  /\ viewport g' = viewport (centerViewportOnPlayer (set_myPlayer (Some p) g))
  /\ exists rest,
       canvas_ops g'
       = canvas_ops g ++ ClearRect 0 0 (canvas_width g) (canvas_height g) :: rest.
Proof.
  intros g'. subst g'. rewrite handleJoinGameResponse_eq.
  pose proof (session_joined_snapshot playerId ps avs g) as Hs.
  pose proof (screen_joined_snapshot playerId ps avs g) as Hv.
  set (g3 := joined_snapshot playerId ps avs g) in *.
  unfold session in Hs. injection Hs as _ _ _ Hme. rewrite Hpresent in Hme.
  rewrite Hme. unfold screen in Hv. injection Hv as Hw Hh Hview Hcw Hch Hr Hops.
  assert (viewport (centerViewportOnPlayer g3)
          = viewport (centerViewportOnPlayer (set_myPlayer (Some p) g))) as Hc.
  { rewrite (centerViewportOnPlayer_eq g3 p Hme).
    rewrite (centerViewportOnPlayer_eq (set_myPlayer (Some p) g) p eq_refl).
    cbn [viewport set_viewport set_myPlayer worldWidth worldHeight].
    rewrite Hw, Hh, Hview. reflexivity. }
  split; [|split; [reflexivity|split]].
  - rewrite (frame_startRenderLoop myPlayer) by independent.
    rewrite (frame_centerViewportOnPlayer myPlayer) by independent. exact Hme.
  - rewrite (frame_startRenderLoop viewport) by independent. exact Hc.
  - unfold startRenderLoop, render.
    cbn [canvas_ops set_canvas_ops set_rendering canvas_width canvas_height].
    rewrite (frame_centerViewportOnPlayer canvas_ops),
            (frame_centerViewportOnPlayer canvas_width),
            (frame_centerViewportOnPlayer canvas_height) by independent.
    rewrite Hops, Hcw, Hch. eexists. reflexivity.
Qed.

Lemma join_with_own_player_witness :
  rendering (handleJoinGameResponse "p1-alice" {[ "p1-alice" := alice ]} ∅ connected)
  = true.
Proof.
  assert (({[ "p1-alice" := alice ]} : gmap string Player) !! "p1-alice"
          = Some alice) as Hp by (vm_compute; reflexivity).
  exact (proj1 (proj2 (join_with_own_player connected "p1-alice"
                         {[ "p1-alice" := alice ]} ∅ alice Hp))).
Defined.

(** ** Movement deltas compose *)

Lemma Object_assign_union {A} (target source : gmap string A) :
  Object_assign target source = source ∪ target.
Proof.
  apply map_eq. intros k. rewrite lookup_Object_assign, lookup_union.
  destruct (source !! k), (target !! k); reflexivity.
Qed.

(** X12: applying two movement deltas one after the other gives
    the table that the single delta "second over first" gives; applying
    the same delta twice is the same as applying it once; and an empty
    delta changes no entry. *)
Theorem handlePlayersMoved_composes (g : GameClient)
    (d1 d2 : gmap string Player) :
  players (handlePlayersMoved d2 (handlePlayersMoved d1 g))
    = players (handlePlayersMoved (d2 ∪ d1) g)
  /\ players (handlePlayersMoved d1 (handlePlayersMoved d1 g))
     = players (handlePlayersMoved d1 g)
  /\ players (handlePlayersMoved ∅ g) = players g.
Proof.
  rewrite !players_handlePlayersMoved, !Object_assign_union.
  split; [|split].
  - apply map_union_assoc.
  - rewrite map_union_assoc, map_union_idemp. reflexivity.
  - apply map_empty_union.
Qed.

(** ** The camera *)

(** X13: the camera and the record it follows change on two
    kinds of event only, a successful join response and a movement delta
    that names the client's own identifier.  A delta about other players,
    a join or a leave (also of the own identifier), input, socket and
    image events leave both as they are. *)
Theorem camera_moves_only_for_own_player (g : GameClient) (e : Event)
    (Hother : recentres g e = false) :
  viewport (step g e) = viewport g /\ myPlayer (step g e) = myPlayer g.
Proof.
  assert (camera (step g e) = camera g) as H.
  { destruct e as [| | |message|throws|code|code|n w h| |]; cbn [step].
    - apply (frame_ws_onopen camera); independent.
    - apply (frame_ws_onclose camera); independent.
    - reflexivity.
    - destruct message as [pid ps avs|err|player avatar|delta|pid|act];
        cbn [handleServerMessage]; try reflexivity.
      + discriminate Hother.
      + apply (frame_handlePlayerJoined camera); independent.
      + cbn [recentres] in Hother. unfold handlePlayersMoved. cbn zeta.
        change (myPlayerId (set_players (Object_assign (players g) delta) g))
          with (myPlayerId g).
        destruct (myPlayerId g) as [me|]; [|reflexivity].
        destruct (truthy (Some me)); [|reflexivity].
        destruct (delta !! me); [discriminate Hother|reflexivity].
    - apply (frame_connectToServer camera); independent.
    - apply (frame_handleKeyDown camera); independent.
    - apply (frame_handleKeyUp camera); independent.
    - apply (frame_img_onload camera); independent.
    - apply (frame_drawWorldMap camera); independent.
    - destruct (rendering g); [apply (frame_render camera); independent|reflexivity]. }
  unfold camera in H. injection H as H1 H2. split; assumption.
Qed.

Lemma camera_moves_only_for_own_player_witness :
  myPlayerId all_loaded = Some "p3-west"
  /\ viewport (step all_loaded (MessageReceived (players_moved alice_delta)))
     = viewport all_loaded
  /\ myPlayer (step all_loaded (MessageReceived (player_left "p3-west")))
     = Some west_walker.
Proof.
  split; [vm_compute; reflexivity|]. split.
  - apply (camera_moves_only_for_own_player all_loaded
             (MessageReceived (players_moved alice_delta))).
    vm_compute. reflexivity.
  - rewrite (proj2 (camera_moves_only_for_own_player all_loaded
              (MessageReceived (player_left "p3-west")) eq_refl)).
    vm_compute. reflexivity.
Defined.

Lemma clamp_idempotent (v hi : Q) :
  Math_max 0 (Math_min (Math_max 0 (Math_min v hi)) hi)
  = Math_max 0 (Math_min v hi).
Proof.
  destruct (Qle_bool 0 hi) eqn:Hhi.
  - apply Qle_bool_iff in Hhi.
    destruct (clamp_in_range v hi Hhi) as [H0 H1].
    apply clamp_inside; assumption.
  - assert (Math_max 0 (Math_min v hi) = 0) as ->.
    { unfold Math_max. destruct (Qle_bool 0 (Math_min v hi)) eqn:Hm; [|reflexivity].
      apply Qle_bool_iff in Hm.
      assert (0 <= hi) as Hc
        by (apply Qle_trans with (Math_min v hi); [exact Hm|apply Math_min_le_r]).
      apply Qle_bool_iff in Hc. congruence. }
    unfold Math_min, Math_max. rewrite Hhi, Hhi. reflexivity.
Qed.

(** X14: clamping and centring are idempotent: doing either a
    second time, with nothing else in between, leaves the client exactly
    as the first time did. *)
Theorem recentring_is_idempotent (g : GameClient) :
  clampViewportToWorld (clampViewportToWorld g) = clampViewportToWorld g
  /\ centerViewportOnPlayer (centerViewportOnPlayer g) = centerViewportOnPlayer g.
Proof.
  assert (forall g0, clampViewportToWorld (clampViewportToWorld g0)
                     = clampViewportToWorld g0) as Hclamp.
  { intros g0. unfold clampViewportToWorld.
    cbn [viewport set_viewport worldWidth worldHeight vp_x vp_y vp_width vp_height].
    rewrite !clamp_idempotent. destruct g0; reflexivity. }
  split; [apply Hclamp|].
  destruct (myPlayer g) as [p|] eqn:Hme.
  - rewrite (centerViewportOnPlayer_eq g p Hme).
    rewrite (centerViewportOnPlayer_eq _ p) by exact Hme.
    cbn [viewport set_viewport worldWidth worldHeight vp_x vp_y vp_width vp_height].
    destruct g; reflexivity.
  - unfold centerViewportOnPlayer. rewrite Hme. cbn. rewrite Hme. reflexivity.
Qed.

(** X15: when the followed player is at least half a viewport
    away from every edge of the world, centring puts the player on the
    exact centre of the viewport: the clamp does not interfere. *)
Theorem centred_away_from_edges (g : GameClient) (p : Player)
    (Hme : myPlayer g = Some p)
    (Hx : vp_width (viewport g) / 2 <= player_x p
          /\ player_x p <= worldWidth g - vp_width (viewport g) / 2)
    (Hy : vp_height (viewport g) / 2 <= player_y p
          /\ player_y p <= worldHeight g - vp_height (viewport g) / 2) :
  let v' := viewport (centerViewportOnPlayer g) in
  player_x p - vp_x v' == vp_width v' / 2
  /\ player_y p - vp_y v' == vp_height v' / 2.
Proof.
  intros v'. subst v'. rewrite (centerViewportOnPlayer_eq g p Hme).
  cbn [viewport set_viewport vp_x vp_y vp_width vp_height].
  destruct Hx as [Hx1 Hx2]. destruct Hy as [Hy1 Hy2].
  assert (vp_width (viewport g) / 2 + vp_width (viewport g) / 2
          == vp_width (viewport g)) as Hw by field.
  assert (vp_height (viewport g) / 2 + vp_height (viewport g) / 2
          == vp_height (viewport g)) as Hh by field.
  set (hw := vp_width (viewport g) / 2) in *.
  set (hh := vp_height (viewport g) / 2) in *.
  clearbody hw hh.
  rewrite !clamp_inside by lra. split; lra.
Qed.

Lemma centred_away_from_edges_witness :
  player_x carol
    - vp_x (viewport (centerViewportOnPlayer small_window_on_carol)) == 400
  /\ player_y carol
    - vp_y (viewport (centerViewportOnPlayer small_window_on_carol)) == 300.
Proof.
  pose proof (centred_away_from_edges small_window_on_carol carol eq_refl) as H.
  cbv zeta in H.
  assert (vp_width (viewport small_window_on_carol) / 2 <= player_x carol
          /\ player_x carol
             <= worldWidth small_window_on_carol
                - vp_width (viewport small_window_on_carol) / 2) as Hx
    by (split; vm_compute; discriminate).
  assert (vp_height (viewport small_window_on_carol) / 2 <= player_y carol
          /\ player_y carol
             <= worldHeight small_window_on_carol
                - vp_height (viewport small_window_on_carol) / 2) as Hy
    by (split; vm_compute; discriminate).
  destruct (H Hx Hy) as [H1 H2]. split.
  - rewrite H1. vm_compute. reflexivity.
  - rewrite H2. vm_compute. reflexivity.
Defined.

(** ** Frame resolution *)

Lemma getAvatarFrame_eq avatar table facing frames animationFrame :
  avatar_frames avatar = Some table ->
  table !! frame_direction facing = Some frames ->
  getAvatarFrame avatar facing animationFrame
  = array_get frames
      (Z.min (or_zero animationFrame) (Z.of_nat (length frames) - 1)).
Proof.
  intros Hf Hd. unfold getAvatarFrame. rewrite Hf. cbn zeta.
  unfold frame_direction in Hd. rewrite Hd. reflexivity.
Qed.

(** X16: on a non-empty frame list and for a frame index that is
    not negative, [getAvatarFrame] always returns a frame: the one at the
    index when it is in range, the last one when it is past the end. *)
Theorem getAvatarFrame_clamps (avatar : Avatar)
    (table : gmap string (list string)) (facing : string)
    (frames : list string) (i : Z)
    (Hframes : avatar_frames avatar = Some table)
    (Hdir : table !! frame_direction facing = Some frames)
    (Hne : frames <> [])
    (Hi : (0 <= i)%Z) :
  getAvatarFrame avatar facing (Some i)
    = frames !! Nat.min (Z.to_nat i) (length frames - 1)
  /\ is_Some (getAvatarFrame avatar facing (Some i))
  /\ ((Z.of_nat (length frames) <= i)%Z ->
      getAvatarFrame avatar facing (Some i) = last frames).
Proof.
  rewrite (getAvatarFrame_eq avatar table facing frames (Some i) Hframes Hdir).
  assert (0 < length frames)%nat as Hlen
    by (destruct frames; [congruence|cbn; lia]).
  change (or_zero (Some i)) with i. unfold array_get.
  assert ((Z.min i (Z.of_nat (length frames) - 1) <? 0)%Z = false) as ->
    by (apply Z.ltb_ge; lia).
  assert (Z.to_nat (Z.min i (Z.of_nat (length frames) - 1))
          = Nat.min (Z.to_nat i) (length frames - 1)) as -> by lia.
  split; [reflexivity|]. split.
  - apply lookup_lt_is_Some. lia.
  - intros Hge. rewrite Nat.min_r by lia. rewrite last_lookup.
    f_equal. lia.
Qed.

Lemma getAvatarFrame_clamps_witness :
  getAvatarFrame knight "west" (Some 7%Z) = Some "E1"
  /\ getAvatarFrame knight "south" (Some 0%Z) = Some "S0".
Proof.
  assert (knight_frames !! frame_direction "west" = Some ["E0"; "E1"]) as Hw
    by (vm_compute; reflexivity).
  assert (knight_frames !! frame_direction "south" = Some ["S0"; "S1"]) as Hs
    by (vm_compute; reflexivity).
  split.
  - rewrite (proj1 (getAvatarFrame_clamps knight knight_frames "west"
                      ["E0"; "E1"] 7 eq_refl Hw ltac:(discriminate) ltac:(lia))).
    reflexivity.
  - rewrite (proj1 (getAvatarFrame_clamps knight knight_frames "south"
                      ["S0"; "S1"] 0 eq_refl Hs ltac:(discriminate) ltac:(lia))).
    reflexivity.
Defined.

(** X17: [getAvatarFrame] returns nothing in exactly four cases:
    the avatar has no frame table, the table has no list for the direction
    (east, for a west-facing player), that list is empty, or the frame
    index is negative.  The index is not clamped from below. *)
Theorem getAvatarFrame_none_iff (avatar : Avatar) (facing : string)
    (animationFrame : option Z) :
  getAvatarFrame avatar facing animationFrame = None
  <-> match avatar_frames avatar with
      | None => True
      | Some table =>
          match table !! frame_direction facing with
          | None => True
          | Some frames => frames = [] \/ (or_zero animationFrame < 0)%Z
          end
      end.
Proof.
  destruct (avatar_frames avatar) as [table|] eqn:Hf;
    [|unfold getAvatarFrame; rewrite Hf; tauto].
  destruct (table !! frame_direction facing) as [frames|] eqn:Hd.
  - rewrite (getAvatarFrame_eq avatar table facing frames animationFrame Hf Hd).
    unfold array_get. set (i := or_zero animationFrame).
    destruct (Z.min i (Z.of_nat (length frames) - 1) <? 0)%Z eqn:Hneg.
    + apply Z.ltb_lt in Hneg. split; [|reflexivity]. intros _.
      destruct frames; [left; reflexivity|right; cbn [length] in Hneg; lia].
    + apply Z.ltb_ge in Hneg. split.
      * intros Hnone. apply lookup_ge_None in Hnone. lia.
      * intros [-> | Hi]; [cbn in Hneg|]; lia.
  - unfold getAvatarFrame. rewrite Hf. cbn zeta.
    unfold frame_direction in Hd. rewrite Hd. tauto.
Qed.

(** ** Drawing one player *)

(** X18: a player whose position on the screen is more than 50
    units outside the viewport, on any side, is not drawn, whatever the
    avatar and the cache hold. *)
Theorem drawPlayer_culls (g : GameClient) (player : Player)
    (Hout : player_x player - vp_x (viewport g) < -50
            \/ vp_width (viewport g) + 50 < player_x player - vp_x (viewport g)
            \/ player_y player - vp_y (viewport g) < -50
            \/ vp_height (viewport g) + 50
               < player_y player - vp_y (viewport g)) :
  drawPlayer g player = [].
Proof.
  unfold drawPlayer. destruct (avatars g !! player_avatar player); [|reflexivity].
  cbn zeta.
  assert (forall u v, u < v -> negb (Qle_bool v u) = true) as Hlt.
  { intros u v Huv. destruct (Qle_bool v u) eqn:E; [|reflexivity].
    apply Qle_bool_iff in E. exfalso. exact (Qlt_not_le _ _ Huv E). }
  destruct Hout as [H|[H|[H|H]]]; apply Hlt in H; rewrite H;
    rewrite ?orb_true_r; reflexivity.
Qed.

Lemma drawPlayer_culls_witness :
  vp_width (viewport all_loaded) + 50
    < player_x far_away - vp_x (viewport all_loaded)
  /\ drawPlayer all_loaded far_away = [].
Proof.
  assert (vp_width (viewport all_loaded) + 50
          < player_x far_away - vp_x (viewport all_loaded)) as H
    by (vm_compute; reflexivity).
  split; [exact H|].
  apply (drawPlayer_culls all_loaded far_away). right. left. exact H.
Defined.

(** X19: whenever anything is drawn for a player, the avatar is
    known, the player is within the margin, the cache has an entry under
    the key made of the avatar name and the player's own facing and frame
    index, and what is drawn is that entry's image, 128 units high and as
    wide as its natural proportions make it, centred on the player's
    screen position (issued mirrored under [scale(-1, 1)] for west),
    followed by the label, stroked then filled, 5 units above the sprite. *)
Theorem drawPlayer_draws (g : GameClient) (player : Player)
    (Hdrawn : drawPlayer g player <> []) :
  exists avatar c,
    avatars g !! player_avatar player = Some avatar
    /\ avatarImageCache g
         !! cacheKey (avatar_name avatar) (player_facing player)
              (or_zero (player_animationFrame player)) = Some c
    /\ let sx := player_x player - vp_x (viewport g) in
       let sy := player_y player - vp_y (viewport g) in
       let dw := 128 * (cached_width c / cached_height c) in
       -50 <= sx /\ sx <= vp_width (viewport g) + 50
       /\ -50 <= sy /\ sy <= vp_height (viewport g) + 50
       /\ drawPlayer g player
          = (if decide (player_facing player = "west")
             then [CtxSave; CtxScale (-1) 1;
                   DrawImage (cached_image c) (- (sx - dw / 2) - dw)
                             (sy - 128 / 2) dw 128;
                   CtxRestore]
             else [DrawImage (cached_image c) (sx - dw / 2) (sy - 128 / 2)
                             dw 128])
            ++ drawPlayerLabel player sx (sy - 128 / 2 - 5).
Proof.
  unfold drawPlayer in *.
  destruct (avatars g !! player_avatar player) as [avatar|]; [|congruence].
  cbn zeta in *.
  destruct (Qle_bool (-50) (player_x player - vp_x (viewport g))) eqn:H1;
    [|cbn in Hdrawn; congruence].
  destruct (Qle_bool (player_x player - vp_x (viewport g))
              (vp_width (viewport g) + 50)) eqn:H2;
    [|cbn in Hdrawn; congruence].
  destruct (Qle_bool (-50) (player_y player - vp_y (viewport g))) eqn:H3;
    [|cbn in Hdrawn; congruence].
  destruct (Qle_bool (player_y player - vp_y (viewport g))
              (vp_height (viewport g) + 50)) eqn:H4;
    [|cbn in Hdrawn; congruence].
  cbn [negb orb] in *.
  destruct (negb (truthy _)); [congruence|].
  destruct (avatarImageCache g !! _) as [c|] eqn:Hc; [|congruence].
  exists avatar, c. split; [reflexivity|]. split; [exact Hc|].
  apply Qle_bool_iff in H1, H2, H3, H4.
  repeat split; try assumption.
Qed.

Lemma drawPlayer_draws_witness :
  exists avatar c,
    avatars all_loaded !! player_avatar east_walker = Some avatar
    /\ avatarImageCache all_loaded
         !! cacheKey (avatar_name avatar) "east" 0 = Some c.
Proof.
  assert (drawPlayer all_loaded east_walker <> []) as Hd
    by (vm_compute; discriminate).
  destruct (drawPlayer_draws all_loaded east_walker Hd)
    as (avatar & c & Ha & Hc & _).
  exists avatar, c. split; [exact Ha|exact Hc].
Defined.

(** *** The label *)

Lemma substring_prefix (n : nat) : forall s : string,
  exists rest, s = String.substring 0 n s +:+ rest
               /\ String.length (String.substring 0 n s)
                  = Nat.min n (String.length s).
Proof.
  induction n as [|n IH]; intros s.
  - exists s. destruct s; split; reflexivity.
  - destruct s as [|c s].
    + exists EmptyString. split; reflexivity.
    + destruct (IH s) as (rest & Hs & Hl). exists rest.
      cbn [String.substring String.length Nat.min]. split.
      * rewrite append_String. rewrite <- Hs. reflexivity.
      * rewrite Hl. reflexivity.
Qed.

(** X20: the label is the user name followed, in parentheses, by
    the first four characters of the identifier, or by the whole identifier
    when it has fewer; it is stroked and then filled at the same place. *)
Theorem drawPlayerLabel_short_id (player : Player) (x y : Q) :
  exists shortId rest,
    player_id player = shortId +:+ rest
    /\ String.length shortId = Nat.min 4 (String.length (player_id player))
    /\ drawPlayerLabel player x y
       = [StrokeText (player_username player +:+ " (" +:+ shortId +:+ ")") x y;
          FillText (player_username player +:+ " (" +:+ shortId +:+ ")") x y].
Proof.
  destruct (substring_prefix 4 (player_id player)) as (rest & Hs & Hl).
  exists (String.substring 0 4 (player_id player)), rest.
  split; [exact Hs|]. split; [exact Hl|reflexivity].
Qed.

(** ** Sprite cache, further *)

Lemma set_loading_id g : set_loading (loading g) g = g.
Proof. destruct g; reflexivity. Qed.

Lemma preloadFrame_cached name d e g :
  is_Some (avatarImageCache g !! cacheKey name d (fst e)) ->
  preloadFrame name d e g = g.
Proof. intros [c Hc]. unfold preloadFrame. cbn zeta. rewrite Hc. reflexivity. Qed.

Lemma preloadFrames_cached name d (l : list (Z * string)) g :
  Forall (fun e => is_Some (avatarImageCache g !! cacheKey name d (fst e))) l ->
  foldl (fun acc e => preloadFrame name d e acc) g l = g.
Proof.
  induction 1 as [|e l He _ IH]; [reflexivity|].
  cbn [foldl]. rewrite (preloadFrame_cached name d e g He). exact IH.
Qed.

Lemma preloadDirections_cached name (l : list (string * list string)) g :
  Forall (fun e => is_Some (avatarImageCache g !! entry_key name e))
    (l ≫= (fun entry =>
       (fun e => (fst entry, fst e, snd e)) <$> indexed (snd entry))) ->
  foldl (preloadDirection name) g l = g.
Proof.
  induction l as [|entry l IH]; [reflexivity|].
  rewrite bind_cons. intros H. apply Forall_app in H as [H1 H2].
  cbn [foldl]. unfold preloadDirection at 2.
  rewrite preloadFrames_cached; [exact (IH H2)|].
  apply Forall_forall. intros e He.
  rewrite Forall_forall in H1.
  apply (H1 (fst entry, fst e, snd e)).
  apply list_elem_of_fmap. exists e. split; [reflexivity|exact He].
Qed.

(** X21: once every frame of an avatar has an entry in the cache,
    preloading that avatar again does nothing at all: no image is created
    and the client is left exactly as it was. *)
Theorem preloadAvatarImages_loaded (avatar : Avatar) (g : GameClient)
    (Hall : Forall (fun e => is_Some (avatarImageCache g
                                        !! entry_key (avatar_name avatar) e))
              (frame_entries avatar)) :
  preloadAvatarImages avatar g = g.
Proof.
  unfold preloadAvatarImages. unfold frame_entries in Hall.
  destruct (avatar_frames avatar) as [table|]; [|reflexivity].
  apply preloadDirections_cached. exact Hall.
Qed.

Lemma preloadAvatarImages_loaded_witness :
  preloadAvatarImages knight all_loaded = all_loaded.
Proof.
  apply (preloadAvatarImages_loaded knight all_loaded).
  apply (bool_decide_unpack _). vm_compute. exact I.
Defined.

Lemma started_by_preload_elem avatar cache table d (arr : list string)
    (i : nat) frameData :
  avatar_frames avatar = Some table -> table !! d = Some arr ->
  arr !! i = Some frameData ->
  cache !! cacheKey (avatar_name avatar) d (Z.of_nat i) = None ->
  mkPending (cacheKey (avatar_name avatar) d (Z.of_nat i)) frameData
    ∈ started_by_preload avatar cache.
Proof.
  intros Hf Hd Hi Hc. unfold started_by_preload.
  apply list_elem_of_fmap. exists (d, Z.of_nat i, frameData).
  split; [reflexivity|].
  apply list_elem_of_In, List.filter_In. split.
  - apply list_elem_of_In.
    exact (frame_key_visited avatar table d arr i frameData Hf Hd Hi).
  - unfold uncached, entry_key. cbn [fst snd]. rewrite Hc. reflexivity.
Qed.

(** X22: preloading an avatar and then letting the image of one
    of its frames finish loading puts the decoded frame into the cache
    under that frame's key, with the natural size reported, and leaves
    every other key as it was. *)
Theorem preload_then_onload (avatar : Avatar) (g : GameClient)
    (table : gmap string (list string)) (d : string) (arr : list string)
    (i : nat) (frameData : string)
    (Hframes : avatar_frames avatar = Some table)
    (Hd : table !! d = Some arr)
    (Hi : arr !! i = Some frameData)
    (Hnew : avatarImageCache g
              !! cacheKey (avatar_name avatar) d (Z.of_nat i) = None) :
  let key := cacheKey (avatar_name avatar) d (Z.of_nat i) in
  let g1 := preloadAvatarImages avatar g in
  exists n,
    loading g1 !! n = Some (mkPending key frameData)
    /\ forall w h k,
         avatarImageCache (img_onload n w h g1) !! k
         = if decide (k = key)
           then Some (mkCached (mkImage frameData w h) w h)
           else avatarImageCache g !! k.
Proof.
  intros key g1.
  destruct (preloadAvatarImages_spec avatar g) as [Hc Hl]. fold g1 in Hc, Hl.
  pose proof (started_by_preload_elem avatar (avatarImageCache g) table d arr i
                frameData Hframes Hd Hi Hnew) as Hin.
  fold key in Hin.
  assert (mkPending key frameData ∈ loading g1) as Hin'
    by (rewrite Hl; apply elem_of_app; right; exact Hin).
  apply list_elem_of_lookup in Hin' as [n Hn].
  exists n. split; [exact Hn|].
  intros w h k. unfold img_onload. rewrite Hn.
  cbn [avatarImageCache set_avatarImageCache pending_cacheKey pending_src].
  rewrite Hc. destruct (decide (k = key)) as [->|Hne].
  - apply lookup_insert_eq.
  - apply lookup_insert_ne. congruence.
Qed.

Lemma preload_then_onload_witness :
  exists n,
    loading (preloadAvatarImages knight connected) !! n
    = Some (mkPending (cacheKey "knight" "north" 0) "N0")
    /\ avatarImageCache (img_onload n 32 48 (preloadAvatarImages knight connected))
         !! cacheKey "knight" "north" 0
       = Some (mkCached (mkImage "N0" 32 48) 32 48).
Proof.
  assert (knight_frames !! "north" = Some ["N0"]) as Hd
    by (vm_compute; reflexivity).
  assert (avatarImageCache connected !! cacheKey (avatar_name knight) "north"
                                         (Z.of_nat 0) = None) as Hn
    by (vm_compute; reflexivity).
  destruct (preload_then_onload knight connected knight_frames "north" ["N0"]
              0 "N0" eq_refl Hd eq_refl Hn) as (n & Hl & Hc).
  exists n. split; [exact Hl|].
  rewrite (Hc 32 48 (cacheKey "knight" "north" 0)).
  destruct (decide _) as [_|Hne]; [reflexivity|].
  exfalso. apply Hne. reflexivity.
Defined.

(** X23: within one avatar, two frames with different direction
    or index never share a cache key; but the key does not separate the
    avatar name from the direction, so an avatar whose name ends like a
    direction's beginning shares keys with another avatar. *)
Theorem cacheKey_collisions (name x direction d' : string) (i i' : Z) :
  (cacheKey name direction i = cacheKey name d' i' <->
     direction = d' /\ i = i')
  /\ cacheKey (name +:+ "_" +:+ x) direction i
     = cacheKey name (x +:+ "_" +:+ direction) i.
Proof.
  split; [split|].
  - apply cacheKey_inj.
  - intros [-> ->]. reflexivity.
  - unfold cacheKey.
    assert (forall a b c : string, (a +:+ b) +:+ c = a +:+ (b +:+ c)) as Hassoc.
    { intros a b c. induction a as [|ch a IH]; [reflexivity|].
      rewrite !append_String, IH. reflexivity. }
    rewrite !Hassoc. reflexivity.
Qed.

(** *** Every new avatar is preloaded *)

Lemma preload_all_spec (l : list (string * Avatar)) : forall g,
  avatarImageCache
    (foldl (fun acc entry => preloadAvatarImages (snd entry) acc) g l)
  = avatarImageCache g
  /\ loading (foldl (fun acc entry => preloadAvatarImages (snd entry) acc) g l)
     = loading g
       ++ (l ≫= fun entry => started_by_preload (snd entry) (avatarImageCache g)).
Proof.
  induction l as [|entry l IH]; intros g.
  - cbn. rewrite app_nil_r. split; reflexivity.
  - cbn [foldl].
    destruct (preloadAvatarImages_spec (snd entry) g) as [Hc Hl].
    destruct (IH (preloadAvatarImages (snd entry) g)) as [Hc' Hl'].
    rewrite Hc', Hl', Hc, Hl. split; [reflexivity|].
    rewrite bind_cons, <- app_assoc. reflexivity.
Qed.

Lemma loading_handleJoinGameResponse playerId ps avs g :
  loading (handleJoinGameResponse playerId ps avs g)
  = loading g
    ++ (map_to_list avs ≫=
          fun entry => started_by_preload (snd entry) (avatarImageCache g)).
Proof.
  rewrite handleJoinGameResponse_eq.
  assert (loading (joined_snapshot playerId ps avs g)
          = loading g
            ++ (map_to_list avs ≫=
                  fun entry => started_by_preload (snd entry) (avatarImageCache g)))
    as H.
  { unfold joined_snapshot. cbn zeta.
    match goal with |- context [foldl ?f ?a ?l] =>
      destruct (preload_all_spec l a) as [_ Hl] end.
    exact Hl. }
  destruct (myPlayer (joined_snapshot playerId ps avs g)); [|exact H].
  rewrite (frame_startRenderLoop loading) by independent.
  rewrite (frame_centerViewportOnPlayer loading) by independent. exact H.
Qed.

(** X24: both messages that introduce avatars start the decoding
    of their frames at once: after a join response, and after a
    [player_joined], there is an image in flight (or loaded since) for
    every frame of every avatar of the message whose key had no cache
    entry. *)
Theorem new_avatars_are_preloaded (g : GameClient) (avatar : Avatar)
    (table : gmap string (list string)) (d : string) (arr : list string)
    (i : nat) (frameData : string)
    (Hframes : avatar_frames avatar = Some table)
    (Hd : table !! d = Some arr)
    (Hi : arr !! i = Some frameData)
    (Hnew : avatarImageCache g
              !! cacheKey (avatar_name avatar) d (Z.of_nat i) = None) :
  let image := mkPending (cacheKey (avatar_name avatar) d (Z.of_nat i)) frameData in
  (forall player, image ∈ loading (handlePlayerJoined player avatar g))
  /\ (forall playerId ps avs k,
        avs !! k = Some avatar ->
        image ∈ loading (handleJoinGameResponse playerId ps avs g)).
Proof.
  intros image.
  pose proof (started_by_preload_elem avatar (avatarImageCache g) table d arr i
                frameData Hframes Hd Hi Hnew) as Hin.
  fold image in Hin. split.
  - intros player. unfold handlePlayerJoined. cbn zeta.
    match goal with |- context [preloadAvatarImages avatar ?x] =>
      destruct (preloadAvatarImages_spec avatar x) as [_ Hl] end.
    rewrite Hl. apply elem_of_app. right. exact Hin.
  - intros playerId ps avs k Hk. rewrite loading_handleJoinGameResponse.
    apply elem_of_app. right. apply list_elem_of_bind.
    exists (k, avatar). split; [exact Hin|].
    apply elem_of_map_to_list. exact Hk.
Qed.

Lemma new_avatars_are_preloaded_witness :
  mkPending (cacheKey "knight" "north" 0) "N0"
    ∈ loading (handlePlayerJoined bob knight connected)
  /\ mkPending (cacheKey "knight" "north" 0) "N0"
    ∈ loading (handleJoinGameResponse "p2-bob" {[ "p2-bob" := bob ]}
                 {[ "knight" := knight ]} connected).
Proof.
  assert (knight_frames !! "north" = Some ["N0"]) as Hd
    by (vm_compute; reflexivity).
  assert (avatarImageCache connected !! cacheKey (avatar_name knight) "north"
                                         (Z.of_nat 0) = None) as Hn
    by (vm_compute; reflexivity).
  assert (({[ "knight" := knight ]} : gmap string Avatar) !! "knight"
          = Some knight) as Hk by (vm_compute; reflexivity).
  destruct (new_avatars_are_preloaded connected knight knight_frames "north"
              ["N0"] 0 "N0" eq_refl Hd eq_refl Hn) as [H1 H2].
  split; [apply H1|].
  exact (H2 "p2-bob" {[ "p2-bob" := bob ]} {[ "knight" := knight ]} "knight" Hk).
Defined.

(** ** Nothing is rendered before the join *)

Lemma not_rendering_of g g' :
  drawn g' = drawn g -> not_rendering g -> not_rendering g'.
Proof.
  unfold drawn, not_rendering. intros H.
  injection H as -> -> -> ->. tauto.
Qed.

Lemma drawn_handlePlayersMoved delta g :
  drawn (handlePlayersMoved delta g) = drawn g.
Proof.
  destruct (handlePlayersMoved_cases drawn ltac:(independent) delta g)
    as (g1 & H1 & [-> | [p ->]]); [exact H1|].
  rewrite (frame_centerViewportOnPlayer drawn) by independent. exact H1.
Qed.

Lemma not_rendering_step g e :
  is_join_ok e = false -> not_rendering g -> not_rendering (step g e).
Proof.
  intros Hj H.
  destruct e as [| | |message|throws|code|code|n w h| |]; cbn [step].
  - apply (not_rendering_of g); [|exact H]. apply (frame_ws_onopen drawn); independent.
  - apply (not_rendering_of g); [|exact H]. apply (frame_ws_onclose drawn); independent.
  - exact H.
  - apply (not_rendering_of g); [|exact H].
    destruct message as [pid ps avs|err|player avatar|delta|pid|act];
      cbn [handleServerMessage]; try reflexivity.
    + discriminate Hj.
    + apply (frame_handlePlayerJoined drawn); independent.
    + apply drawn_handlePlayersMoved.
  - apply (not_rendering_of g); [|exact H].
    apply (frame_connectToServer drawn); independent.
  - apply (not_rendering_of g); [|exact H].
    apply (frame_handleKeyDown drawn); independent.
  - apply (not_rendering_of g); [|exact H].
    apply (frame_handleKeyUp drawn); independent.
  - apply (not_rendering_of g); [|exact H].
    apply (frame_img_onload drawn); independent.
  - destruct H as (Hw & Hh & Hr & Hops). unfold drawWorldMap.
    destruct (worldImage g); [|repeat split; assumption].
    repeat split; try assumption.
    cbn [canvas_ops set_canvas_ops]. apply Forall_app. split; [exact Hops|].
    apply Forall_singleton. rewrite Hw, Hh. reflexivity.
  - destruct H as (Hw & Hh & Hr & Hops). rewrite Hr.
    repeat split; assumption.
Qed.

(** X25: until a successful join response arrives, the render
    loop does not run: animation frames do nothing, no player and no
    viewport crop is ever drawn, and the only thing the canvas is asked
    for is the whole map, when the map image loads. *)
Theorem nothing_rendered_before_join (cw ch : Q) (throws : bool)
    (events : list Event)
    (Hnojoin : forallb (fun e => negb (is_join_ok e)) events = true) :
  let g := run (GameClient_new cw ch throws) events in
  rendering g = false
  /\ Forall (fun op => op = whole_map) (canvas_ops g)
  /\ step g AnimationFrame = g.
Proof.
  intros g.
  assert (not_rendering g) as (_ & _ & Hr & Hops).
  { subst g.
    assert (not_rendering (GameClient_new cw ch throws)) as H0.
    { apply (not_rendering_of (fields_init cw ch)).
      - unfold GameClient_new, init.
        rewrite (frame_connectToServer drawn) by independent. reflexivity.
      - repeat split. constructor. }
    revert H0 Hnojoin. generalize (GameClient_new cw ch throws).
    induction events as [|e events IH]; intros g0 H0 Hno; [exact H0|].
    cbn [forallb] in Hno. apply andb_prop in Hno as [He Hno].
    apply negb_true_iff in He.
    change (run g0 (e :: events)) with (run (step g0 e) events).
    apply IH; [|exact Hno]. apply not_rendering_step; assumption. }
  split; [exact Hr|]. split; [exact Hops|].
  cbn [step]. rewrite Hr. reflexivity.
Qed.

Lemma nothing_rendered_before_join_witness :
  rendering (run (GameClient_new 300 150 false)
               [SocketOpened; WorldImageLoaded; AnimationFrame;
                MessageReceived (player_joined alice knight);
                MessageReceived (players_moved alice_delta); AnimationFrame])
  = false.
Proof.
  exact (proj1 (nothing_rendered_before_join 300 150 false
                  [SocketOpened; WorldImageLoaded; AnimationFrame;
                   MessageReceived (player_joined alice knight);
                   MessageReceived (players_moved alice_delta); AnimationFrame]
                  eq_refl)).
Defined.

Example map_drawn_once_before_join :
  canvas_ops (run (GameClient_new 300 150 false)
                [SocketOpened; WorldImageLoaded; AnimationFrame;
                 MessageReceived (player_joined alice knight); AnimationFrame])
  = [whole_map].
Proof. vm_compute. reflexivity. Qed.

(** ** A frame with nothing loaded *)

Lemma drawPlayer_empty_cache g player :
  avatarImageCache g = ∅ -> drawPlayer g player = [].
Proof.
  intros Hc. unfold drawPlayer.
  destruct (avatars g !! player_avatar player); [|reflexivity]. cbn zeta.
  destruct (_ || _); [reflexivity|].
  destruct (negb _); [reflexivity|]. rewrite Hc, lookup_empty. reflexivity.
Qed.

(** X26: while no sprite has finished loading, a rendered frame
    consists of clearing the canvas and the crop of the map (if the map
    image object exists) and of nothing else: no player is drawn, and no
    label either. *)
Theorem render_before_sprites_load (g : GameClient)
    (Hempty : avatarImageCache g = ∅) :
  drawPlayers g = []
  /\ canvas_ops (render g)
     = canvas_ops g
       ++ ClearRect 0 0 (canvas_width g) (canvas_height g)
       :: drawWorldMapWithViewport g.
Proof.
  assert (drawPlayers g = []) as Hd.
  { unfold drawPlayers. induction (map_to_list (players g)) as [|entry l IH];
      [reflexivity|].
    cbn [flat_map]. rewrite IH, (drawPlayer_empty_cache g (snd entry) Hempty).
    reflexivity. }
  split; [exact Hd|]. unfold render. cbn [canvas_ops set_canvas_ops].
  rewrite Hd, app_nil_r. reflexivity.
Qed.

Lemma render_before_sprites_load_witness :
  drawPlayers joined_twice = [].
Proof.
  exact (proj1 (render_before_sprites_load joined_twice
                  ltac:(vm_compute; reflexivity))).
Defined.

(** ** A key-up with nothing held *)

(** X27: the key-up of a tracked key sends a stop whenever the
    held set is empty afterwards, also when the key was not held at all:
    with nothing held and the channel open, a stray key-up of an arrow key
    sends one stop. *)
Theorem stray_keyup_sends_stop (g : GameClient) (code : string)
    (Htracked : is_Some (movementKeys !! code))
    (Hnone : pressedKeys g = ∅)
    (Hopen : channel_open g) :
  sent (handleKeyUp code g) = sent g ++ [Stop]
  /\ pressedKeys (handleKeyUp code g) = ∅.
Proof.
  destruct Htracked as [direction Hd]. unfold handleKeyUp. rewrite Hd. cbn zeta.
  assert (pressedKeys g ∖ {[code]} = ∅) as ->
    by (rewrite Hnone; apply difference_disjoint_L, disjoint_empty_l).
  destruct (decide _) as [_|Hnz].
  - unfold sendStopCommand. split.
    + rewrite sent_send_if_open; [reflexivity|exact Hopen].
    + rewrite pressedKeys_send_if_open. reflexivity.
  - exfalso. apply Hnz. exact (size_empty (C := gset string)).
Qed.

Lemma connected_open : channel_open connected.
Proof. eexists. split; [vm_compute; reflexivity|reflexivity]. Qed.

Lemma stray_keyup_sends_stop_witness :
  sent (handleKeyUp "ArrowDown" connected) = [JoinGame "Dawn"; Stop].
Proof.
  exact (proj1 (stray_keyup_sends_stop connected "ArrowDown"
                  ltac:(eexists; reflexivity)
                  ltac:(apply (bool_decide_unpack _); vm_compute; exact I)
                  connected_open)).
Defined.

(** ** What is never forgotten *)

Lemma cache_step g e :
  dom (avatarImageCache g) ⊆ dom (avatarImageCache (step g e)).
Proof.
  destruct e as [| | |message|throws|code|code|n w h| |]; cbn [step].
  - rewrite (frame_ws_onopen avatarImageCache) by independent. reflexivity.
  - rewrite (frame_ws_onclose avatarImageCache) by independent. reflexivity.
  - reflexivity.
  - rewrite (frame_handleServerMessage avatarImageCache) by independent.
    reflexivity.
  - rewrite (frame_connectToServer avatarImageCache) by independent. reflexivity.
  - rewrite (frame_handleKeyDown avatarImageCache) by independent. reflexivity.
  - rewrite (frame_handleKeyUp avatarImageCache) by independent. reflexivity.
  - unfold img_onload. destruct (loading g !! n); [|reflexivity].
    cbn [avatarImageCache set_avatarImageCache]. apply dom_insert_subseteq.
  - rewrite (frame_drawWorldMap avatarImageCache) by independent. reflexivity.
  - destruct (rendering g); [|reflexivity].
    rewrite (frame_render avatarImageCache) by independent. reflexivity.
Qed.

(** X28: the sprite cache never evicts: along any run, through
    reconnects and new join snapshots as well, every key that has an
    entry keeps having one. *)
Theorem sprite_cache_only_grows (g : GameClient) (events : list Event) :
  dom (avatarImageCache g) ⊆ dom (avatarImageCache (run g events)).
Proof.
  revert g. induction events as [|e events IH]; intros g; [reflexivity|].
  change (run g (e :: events)) with (run (step g e) events).
  etransitivity; [apply cache_step|apply IH].
Qed.

Lemma avatars_step g e :
  is_join_ok e = false -> dom (avatars g) ⊆ dom (avatars (step g e)).
Proof.
  intros Hj. destruct e as [| | |message|throws|code|code|n w h| |]; cbn [step].
  - rewrite (frame_ws_onopen avatars) by independent. reflexivity.
  - rewrite (frame_ws_onclose avatars) by independent. reflexivity.
  - reflexivity.
  - destruct message as [pid ps avs|err|player avatar|delta|pid|act];
      cbn [handleServerMessage]; try reflexivity.
    + discriminate Hj.
    + rewrite avatars_handlePlayerJoined. apply dom_insert_subseteq.
    + destruct (handlePlayersMoved_cases avatars ltac:(independent) delta g)
        as (g1 & H1 & [-> | [p ->]]).
      * rewrite H1. reflexivity.
      * rewrite (frame_centerViewportOnPlayer avatars) by independent.
        cbn [avatars set_myPlayer]. rewrite H1. reflexivity.
  - rewrite (frame_connectToServer avatars) by independent. reflexivity.
  - rewrite (frame_handleKeyDown avatars) by independent. reflexivity.
  - rewrite (frame_handleKeyUp avatars) by independent. reflexivity.
  - rewrite (frame_img_onload avatars) by independent. reflexivity.
  - rewrite (frame_drawWorldMap avatars) by independent. reflexivity.
  - destruct (rendering g); [|reflexivity].
    rewrite (frame_render avatars) by independent. reflexivity.
Qed.

(** X29: an avatar, once known, stays known when its players
    leave: only a new join snapshot replaces the avatar table; no other
    event removes a name from it. *)
Theorem avatars_persist (g : GameClient) (events : list Event)
    (Hnojoin : forallb (fun e => negb (is_join_ok e)) events = true) :
  dom (avatars g) ⊆ dom (avatars (run g events)).
Proof.
  revert g Hnojoin. induction events as [|e events IH]; intros g Hno;
    [reflexivity|].
  cbn [forallb] in Hno. apply andb_prop in Hno as [He Hno].
  apply negb_true_iff in He.
  change (run g (e :: events)) with (run (step g e) events).
  etransitivity; [apply avatars_step, He|apply IH, Hno].
Qed.

Lemma avatars_persist_witness :
  "knight" ∈ dom (avatars (run connected
                             [MessageReceived (player_joined bob knight);
                              MessageReceived (player_left "p2-bob")])).
Proof.
  pose proof (avatars_persist
                (run connected [MessageReceived (player_joined bob knight)])
                [MessageReceived (player_left "p2-bob")] eq_refl) as H.
  apply H. apply (bool_decide_unpack _). vm_compute. exact I.
Defined.
